(** * Memory access pattern benchmark: index generators, read-sum passes, median

    A shallow embedding of [memory_benchmark_fixed.c] (with the places where
    [memory_benchmark_fixed.cpp] runs the same loops pointed out), and the
    properties of the index generators, of the read-sum accumulator, of the
    median reduction and of the program as a whole.

    Conventions of the embedding:
    - [size_t] and [uint64_t] values are [Z] in [0, 2^64), [uint32_t] values are
      [Z] in [0, 2^32); every arithmetic operation of the source that can wrap is
      written with its reduction ([size_add], [size_mul], ...);
    - [double] is the kernel's binary64 ([PrimFloat.float]);
    - the two heap blocks [arr] and [indices] are lists; a read or a write
      outside a block is undefined behaviour in C and is [None] here, so that
      "the program returns" is a statement to prove;
    - what the program asks of its host (libc's [rand], the clocks, [malloc])
      is a record of oracles, [host]. *)

From Stdlib Require Import ZArith Lia String.
From Stdlib Require Import Floats.PrimFloat Numbers.Cyclic.Int63.Uint63.
From Stdlib Require Floats.FloatOps Floats.FloatAxioms Floats.SpecFloat.
From Stdlib Require Import Sorting.Sorted Sorting.Permutation.
From stdpp Require Import base list.

Open Scope Z_scope.

(** ** Machine integers *)

Definition to_size_t (z : Z) : Z := z mod 2 ^ 64.
Definition to_uint64 (z : Z) : Z := z mod 2 ^ 64.
Definition to_uint32 (z : Z) : Z := z mod 2 ^ 32.

Definition size_add (x y : Z) : Z := to_size_t (x + y).
Definition size_sub (x y : Z) : Z := to_size_t (x - y).
Definition size_mul (x y : Z) : Z := to_size_t (x * y).
(** Unsigned division and remainder never wrap. *)
Definition size_div (x y : Z) : Z := x / y.
Definition size_rem (x y : Z) : Z := x mod y.

(** ** Doubles *)

(** Conversion of a signed 64-bit integer to [double] (round to nearest). *)
Definition double_of_int (z : Z) : float :=
  if z <? 0 then PrimFloat.opp (PrimFloat.of_uint63 (Uint63.of_Z (- z)))
  else PrimFloat.of_uint63 (Uint63.of_Z z).

(** [x > y] on doubles; false as soon as one side is a NaN. *)
Definition double_gt (x y : float) : bool := PrimFloat.ltb y x.

(** ** Constants of the program *)

Definition NUM_ITERATIONS : Z := 10.
Definition WARMUP_ITERATIONS : Z := 3.

(** ** Data *)

(** [typedef struct { uint32_t a, b, c, d, e, f, g, h; } DataStruct;] *)
Record DataStruct : Type := mkDataStruct {
  a : Z; b : Z; c : Z; d : Z; e : Z; f : Z; g : Z; h : Z
}.

(** [struct timeval], as [gettimeofday] fills it. *)
Record timeval : Type := mkTimeval { tv_sec : Z; tv_usec : Z }.

(** The branch of [#ifdef _WIN32] the program was compiled with. *)
Inductive platform : Type := Win32 | Posix.

(** What is written to the two output streams.  The numeric formatting of
    [printf] is not modelled: a line is kept with the values it prints. *)
Inductive output : Type :=
  | Banner                                   (* "Memory Access Pattern Benchmark ..." *)
  | ArraySizeLine (elements : Z)             (* "Array size: ... elements (... MiB)" *)
  | IterationsLine (iterations : Z)          (* "Accessing every 8th element, ..." *)
  | PatternLine (name : string) (ms : float) (* "%12s: %8.2f ms" *)
  | CsvMarker                                (* "CSV_OUTPUT:" *)
  | CsvHeader                                (* "Pattern,Time_ms" *)
  | CsvRow (name : string) (ms : float)      (* "<name>,%.2f" *)
  | AllocationFailed.                        (* "Memory allocation failed" *)

(** The host: libc and the operating system.
    - [rand_seq seed n] is the value of the [n]-th call of [rand()] after
      [srand(seed)];
    - [gettimeofday n], [QueryPerformanceCounter n] and
      [QueryPerformanceFrequency n] are what the clock calls answer at the
      [n]-th call of [get_time];
    - [malloc_arr] and [malloc_indices] are the two blocks [malloc] hands out
      with their uninitialised contents, or [None] for a null pointer. *)
Record host : Type := mkHost {
  target : platform;
  rand_seq : Z -> nat -> Z;
  gettimeofday : nat -> timeval;
  QueryPerformanceCounter : nat -> Z;
  QueryPerformanceFrequency : nat -> Z;
  malloc_arr : option (list DataStruct);
  malloc_indices : option (list Z)
}.

(** The state of the running program: the two global blocks, the state of
    libc's generator, the number of clock reads so far, and the two streams. *)
Record machine : Type := mkMachine {
  arr : list DataStruct;
  indices : list Z;
  rand_seed : Z;
  rand_calls : nat;
  clock_calls : nat;
  stdout : list output;
  stderr : list output
}.

Definition set_arr (v : list DataStruct) (st : machine) : machine :=
  mkMachine v (indices st) (rand_seed st) (rand_calls st) (clock_calls st)
            (stdout st) (stderr st).
Definition set_indices (v : list Z) (st : machine) : machine :=
  mkMachine (arr st) v (rand_seed st) (rand_calls st) (clock_calls st)
            (stdout st) (stderr st).
Definition set_rand (seed : Z) (calls : nat) (st : machine) : machine :=
  mkMachine (arr st) (indices st) seed calls (clock_calls st)
            (stdout st) (stderr st).
Definition set_clock_calls (n : nat) (st : machine) : machine :=
  mkMachine (arr st) (indices st) (rand_seed st) (rand_calls st) n
            (stdout st) (stderr st).
Definition set_stdout (v : list output) (st : machine) : machine :=
  mkMachine (arr st) (indices st) (rand_seed st) (rand_calls st) (clock_calls st)
            v (stderr st).
Definition set_stderr (v : list output) (st : machine) : machine :=
  mkMachine (arr st) (indices st) (rand_seed st) (rand_calls st) (clock_calls st)
            (stdout st) v.

(** ** The monad of the program: state, and [None] for undefined behaviour *)

Definition M (A : Type) : Type := machine -> option (A * machine).

Definition ret {A : Type} (x : A) : M A := fun st => Some (x, st).

Definition bind {A B : Type} (m : M A) (k : A -> M B) : M B :=
  fun st => match m st with
            | Some (x, st') => k x st'
            | None => None
            end.

Definition undefined {A : Type} : M A := fun _ => None.

Notation "'let*' x ':=' m 'in' k" := (bind m (fun x => k))
  (at level 10, x name, m at level 100, k at level 200).
Notation "m '>>>' k" := (bind m (fun _ => k))
  (at level 90, right associativity).

(** ** Loops *)

(** [n] iterations of a body that sees the loop counter; the counter moves by
    [step] after each one. *)
Fixpoint iterate {X : Type} (n : nat) (step : Z) (i : Z)
    (body : Z -> X -> option X) (x : X) : option X :=
  match n with
  | O => Some x
  | S n' => match body i x with
            | Some x' => iterate n' step (i + step) body x'
            | None => None
            end
  end.

(** [for (i = lo; i < hi; i++) body] *)
Definition for_up {X : Type} (lo hi : Z) (body : Z -> X -> option X) : X -> option X :=
  iterate (Z.to_nat (hi - lo)) 1 lo body.

(** [for (i = hi; i > lo; i--) body] *)
Definition for_down {X : Type} (hi lo : Z) (body : Z -> X -> option X) : X -> option X :=
  iterate (Z.to_nat (hi - lo)) (-1) hi body.

(** The same loops over the program state, with a local variable [s] carried
    from one iteration to the next. *)
Definition uncurry_body {V : Type} (body : Z -> V -> M V) (i : Z) (x : V * machine)
  : option (V * machine) := body i (fst x) (snd x).

Definition for_upM {V : Type} (lo hi : Z) (body : Z -> V -> M V) (s : V) : M V :=
  fun st => for_up lo hi (uncurry_body body) (s, st).

Definition for_downM {V : Type} (hi lo : Z) (body : Z -> V -> M V) (s : V) : M V :=
  fun st => for_down hi lo (uncurry_body body) (s, st).

(** Loops without a local variable. *)
Definition for_each_up (lo hi : Z) (body : Z -> M unit) : M unit :=
  for_upM lo hi (fun i _ => body i) tt.

Definition for_each_down (hi lo : Z) (body : Z -> M unit) : M unit :=
  for_downM hi lo (fun i _ => body i) tt.

(** ** Primitive actions *)

(** [indices[i]], [indices[i] = v], [arr[i]], [arr[i] = r] *)
Definition load_index (i : Z) : M Z :=
  fun st => if i <? 0 then None
            else match indices st !! Z.to_nat i with
                 | Some v => Some (v, st)
                 | None => None
                 end.

Definition store_index (i v : Z) : M unit :=
  fun st => if (0 <=? i) && (i <? Z.of_nat (length (indices st)))
            then Some (tt, set_indices (<[Z.to_nat i := v]> (indices st)) st)
            else None.

Definition load_arr (i : Z) : M DataStruct :=
  fun st => if i <? 0 then None
            else match arr st !! Z.to_nat i with
                 | Some r => Some (r, st)
                 | None => None
                 end.

Definition store_arr (i : Z) (r : DataStruct) : M unit :=
  fun st => if (0 <=? i) && (i <? Z.of_nat (length (arr st)))
            then Some (tt, set_arr (<[Z.to_nat i := r]> (arr st)) st)
            else None.

Definition printf (line : output) : M unit :=
  fun st => Some (tt, set_stdout (stdout st ++ [line]) st).

Definition fprintf_stderr (line : output) : M unit :=
  fun st => Some (tt, set_stderr (stderr st ++ [line]) st).

(** ** The timer *)

(** [get_time], [_WIN32] branch:
    [(double)counter.QuadPart / frequency.QuadPart] *)
Definition get_time_win32 (counter frequency : Z) : float :=
  PrimFloat.div (double_of_int counter) (double_of_int frequency).

(** The double nearest to [1e-6]. *)
Definition one_millionth : float := 0x1.0c6f7a0b5ed8dp-20%float.

(** [get_time], other branch: [tv.tv_sec + tv.tv_usec * 1e-6] *)
Definition get_time_posix (tv : timeval) : float :=
  PrimFloat.add (double_of_int (tv_sec tv))
                (PrimFloat.mul (double_of_int (tv_usec tv)) one_millionth).

(** ** Sorting the samples *)

Section Sort.
Context {T : Type} (gt : T -> T -> bool).

(** [if (times[j] > times[j + 1]) { swap }] *)
Definition compare_exchange (j : Z) (times : list T) : option (list T) :=
  if j <? 0 then None
  else match times !! Z.to_nat j, times !! Z.to_nat (j + 1) with
       | Some x, Some y =>
           if gt x y
           then Some (<[Z.to_nat (j + 1) := x]> (<[Z.to_nat j := y]> times))
           else Some times
       | _, _ => None
       end.

(** The two nested loops of [benchmark_pattern], for an array of [n] samples. *)
Definition bubble_sort (n : Z) : list T -> option (list T) :=
  for_up 0 (n - 1) (fun i => for_up 0 (n - i - 1) compare_exchange).

(** [times[NUM_ITERATIONS / 2]] after the sort. *)
Definition median_time (times : list T) : option T :=
  match bubble_sort NUM_ITERATIONS times with
  | Some sorted => sorted !! Z.to_nat (NUM_ITERATIONS / 2)
  | None => None
  end.
End Sort.

(** ** The program *)

Section Program.
(** [#define ARRAY_SIZE (4 * 1024 * 1024)]: kept as a parameter of the
    definitions, so that they can be run on a small buffer; the program's own
    value is [ARRAY_SIZE] below.  It is an [int] expression, and so is
    [ARRAY_SIZE / 8]; the loops compare it with a [size_t]. *)
Variable ARRAY_SIZE : Z.
Variable hst : host.

(** libc's generator *)
Definition srand (seed : Z) : M unit :=
  fun st => Some (tt, set_rand seed 0 st).

Definition rand : M Z :=
  fun st => Some (rand_seq hst (rand_seed st) (rand_calls st),
                  set_rand (rand_seed st) (S (rand_calls st)) st).

(** [get_time]: the branch the program was compiled with, on what the host's
    clock answers at this call. *)
Definition get_time : M float :=
  fun st =>
    let n := clock_calls st in
    let t := match target hst with
             | Win32 => get_time_win32 (QueryPerformanceCounter hst n)
                                       (QueryPerformanceFrequency hst n)
             | Posix => get_time_posix (gettimeofday hst n)
             end in
    Some (t, set_clock_calls (S n) st).

(** *** The five generators

    The methods [generateSequentialIndices], [generateBackwardIndices],
    [generateInterleavedIndices] and [generateBouncingIndices] of the C++ file
    run the same loops, with [indices.size()], which is [ARRAY_SIZE / 8], as
    the bound.  Its [generateRandomIndices] calls [std::shuffle] and its
    [benchmarkPattern] calls [std::sort]: library code, not embedded here. *)

Definition generate_sequential_indices : M unit :=
  for_each_up 0 (to_size_t (ARRAY_SIZE / 8)) (fun i =>
    store_index i (size_mul i 8)).

Definition generate_random_indices : M unit :=
  generate_sequential_indices >>>
  (* Fisher-Yates shuffle *)
  for_each_down (to_size_t (ARRAY_SIZE / 8 - 1)) 0 (fun i =>
    let* r := rand in
    let j := size_rem (to_size_t r) (size_add i 1) in
    let* temp := load_index i in
    let* v := load_index j in
    store_index i v >>>
    store_index j temp).

Definition generate_backward_indices : M unit :=
  for_each_up 0 (to_size_t (ARRAY_SIZE / 8)) (fun i =>
    store_index i (size_mul (size_sub (to_size_t (ARRAY_SIZE / 8 - 1)) i) 8)).

Definition generate_interleaved_indices : M unit :=
  let half := to_size_t ((ARRAY_SIZE / 8) / 2) in
  for_each_up 0 half (fun i =>
    store_index (size_mul 2 i) (size_mul i 8) >>>
    store_index (size_add (size_mul 2 i) 1) (size_mul (size_add half i) 8)).

Definition generate_bouncing_indices : M unit :=
  let count := to_size_t (ARRAY_SIZE / 8) in
  for_each_up 0 count (fun i =>
    if size_rem i 2 =? 0
    then store_index i (size_mul (size_div i 2) 8)
    else store_index i (size_mul (size_sub (size_sub count 1) (size_div i 2)) 8)).

(** *** One benchmark *)

(** [volatile uint64_t sum = 0;
     for (size_t j = 0; j < count; j++) sum += arr[indices[j]].a;]
    The value of [sum] at the end is what the pass returns. *)
Definition read_sum_pass (count : Z) : M Z :=
  for_upM 0 count (fun j sum =>
    let* idx := load_index j in
    let* r := load_arr idx in
    ret (to_uint64 (sum + a r))) 0.

(** [times[i] = v] on the local array of [NUM_ITERATIONS] samples *)
Definition store_sample (i : Z) (v : float) (times : list float) : M (list float) :=
  if (0 <=? i) && (i <? Z.of_nat (length times))
  then ret (<[Z.to_nat i := v]> times)
  else undefined.

Definition benchmark_pattern (generate_func : M unit) (pattern_name : string)
  : M float :=
  generate_func >>>
  let count := to_size_t (ARRAY_SIZE / 8) in
  (* double times[NUM_ITERATIONS]; every cell is written before it is read *)
  let times := replicate (Z.to_nat NUM_ITERATIONS) 0%float in
  (* Warmup runs *)
  for_each_up 0 WARMUP_ITERATIONS (fun w =>
    let* sum := read_sum_pass count in ret tt) >>>
  (* Actual benchmark runs *)
  let* times := for_upM 0 NUM_ITERATIONS (fun i times =>
    let* start := get_time in
    let* sum := read_sum_pass count in
    let* end_ := get_time in
    store_sample i (PrimFloat.mul (PrimFloat.sub end_ start) 1000%float) times)
    times in
  (* Calculate median time *)
  match median_time double_gt times with
  | Some median =>
      printf (PatternLine pattern_name median) >>>
      ret median
  | None => undefined
  end.

(** *** [main] *)

(** The loop that fills [arr].  The eight assignments [arr[i].a = rand()]
    ... [arr[i].h = rand()] are one store of the whole record. *)
Definition initialize_array : M unit :=
  for_each_up 0 (to_size_t ARRAY_SIZE) (fun i =>
    let* ra := rand in
    let* rb := rand in
    let* rc := rand in
    let* rd := rand in
    let* re := rand in
    let* rf := rand in
    let* rg := rand in
    let* rh := rand in
    store_arr i (mkDataStruct (to_uint32 ra) (to_uint32 rb) (to_uint32 rc)
                              (to_uint32 rd) (to_uint32 re) (to_uint32 rf)
                              (to_uint32 rg) (to_uint32 rh))).

(** The five calls of [benchmark_pattern] and the CSV block. *)
Definition run_benchmarks : M unit :=
  let* sequential := benchmark_pattern generate_sequential_indices "Sequential" in
  let* backward := benchmark_pattern generate_backward_indices "Backward" in
  let* interleaved := benchmark_pattern generate_interleaved_indices "Interleaved" in
  let* bouncing := benchmark_pattern generate_bouncing_indices "Bouncing" in
  let* random := benchmark_pattern generate_random_indices "Random" in
  printf CsvMarker >>>
  printf CsvHeader >>>
  printf (CsvRow "Sequential" sequential) >>>
  printf (CsvRow "Backward" backward) >>>
  printf (CsvRow "Interleaved" interleaved) >>>
  printf (CsvRow "Bouncing" bouncing) >>>
  printf (CsvRow "Random" random).

(** What [main] does once [arr] is filled: the header, [srand(42)], the
    benchmarks, and [return 0]. *)
Definition report_and_run : M Z :=
  printf Banner >>>
  printf (ArraySizeLine ARRAY_SIZE) >>>
  printf (IterationsLine NUM_ITERATIONS) >>>
  (* Set random seed for reproducible results *)
  srand 42 >>>
  run_benchmarks >>>
  ret 0.

(** The state in which [main] starts: nothing printed, the generator as
    after [srand(1)], and the two pointers as [malloc] returned them (an
    empty block stands for a null pointer). *)
Definition boot : machine :=
  mkMachine (default [] (malloc_arr hst)) (default [] (malloc_indices hst))
            1 0 0 [] [].

(** [main]: the exit status and the final state, or [None] for undefined
    behaviour.  [free] releases the two blocks at the end; the model keeps
    their last contents. *)
Definition main : option (Z * machine) :=
  match malloc_arr hst, malloc_indices hst with
  | Some _, Some _ =>
      (srand 12345 >>>
       initialize_array >>>
       report_and_run) boot
  | _, _ =>
      (fprintf_stderr AllocationFailed >>> ret 1) boot
  end.

(** The five patterns, in the order [main] runs them. *)
Inductive pattern : Type :=
  Sequential | Backward | Interleaved | Bouncing | Random.

Definition generator (p : pattern) : M unit :=
  match p with
  | Sequential => generate_sequential_indices
  | Backward => generate_backward_indices
  | Interleaved => generate_interleaved_indices
  | Bouncing => generate_bouncing_indices
  | Random => generate_random_indices
  end.
End Program.

(** [#define ARRAY_SIZE (4 * 1024 * 1024)] *)
Definition ARRAY_SIZE : Z := 4 * 1024 * 1024.

(** ** The offsets as the specification writes them

    With [L] the length of the index sequence: Sequential [i*8], Backward
    [(L-1-i)*8], Interleaved [i*8] at position [2i] and [(L/2+i)*8] at
    position [2i+1], Bouncing [(i/2)*8] at an even position and
    [(L-1-i/2)*8] at an odd one. *)

Definition sequential_offset (i : Z) : Z := i * 8.

Definition backward_offset (L i : Z) : Z := (L - 1 - i) * 8.

Definition interleaved_offset (L i : Z) : Z :=
  if i mod 2 =? 0 then (i / 2) * 8 else (L / 2 + i / 2) * 8.

Definition bouncing_offset (L i : Z) : Z :=
  if i mod 2 =? 0 then (i / 2) * 8 else (L - 1 - i / 2) * 8.

(** The sequence of length [L] whose [i]-th offset is [fn i]. *)
Definition offsets (fn : Z -> Z) (L : Z) : list Z := fn <$> seqZ 0 L.

(** The fixed set [{0, 8, 16, ..., N-8}], in ascending order. *)
Definition stride_set (N : Z) : list Z := (fun k => 8 * k) <$> seqZ 0 (N / 8).

(** ** The shuffle as the specification writes it

    "Start from the Sequential sequence, then apply a Fisher-Yates shuffle (for
    [i] from [L-1] down to [1], pick [j] in [[0, i]], swap positions [i] and
    [j]) using a fixed-seed generator." *)

(** The list with the contents of positions [i] and [j] exchanged. *)
Definition swap_positions (l : list Z) (i j : nat) : list Z :=
  match l !! i, l !! j with
  | Some x, Some y => <[i := y]> (<[j := x]> l)
  | _, _ => l
  end.

(** The shuffle from position [n] down to [1]; [draw k] is the [k]-th value
    of the generator, and the pick for position [i] is its remainder modulo
    [i + 1]. *)
Fixpoint fisher_yates (draw : nat -> Z) (k : nat) (n : nat) (l : list Z) : list Z :=
  match n with
  | O => l
  | S n' =>
      let j := draw k mod (Z.of_nat n + 1) in
      fisher_yates draw (S k) n' (swap_positions l n (Z.to_nat j))
  end.

(** The values libc's generator gives after [srand(seed)], as the [size_t]
    the shuffle computes with. *)
Definition draws (hst : host) (seed : Z) (k : nat) : Z :=
  to_size_t (rand_seq hst seed k).

(** The Random sequence of length [L] for a generator that has answered
    [calls] times since [srand(seed)]. *)
Definition random_sequence (hst : host) (seed : Z) (calls : nat) (L : Z) : list Z :=
  fisher_yates (draws hst seed) calls (Z.to_nat (L - 1)) (offsets sequential_offset L).

(** ** Reference sums *)

(** Field [a] of the record at offset [idx] (0 outside the buffer). *)
Definition field_a_at (buffer : list DataStruct) (idx : Z) : Z :=
  match buffer !! Z.to_nat idx with
  | Some r => a r
  | None => 0
  end.

(** The mathematical sum, in [Z], of field [a] over the records an index
    sequence visits. *)
Definition exact_sum (buffer : list DataStruct) (idxs : list Z) : Z :=
  foldr Z.add 0 (field_a_at buffer <$> idxs).

(** The sum of field [a] of every 8th record, computed from the buffer alone:
    take the first record, skip to the 8th after it, and so on ([n] bounds the
    number of records taken). *)
Fixpoint every_8th_sum (n : nat) (buffer : list DataStruct) : Z :=
  match n with
  | O => 0
  | S n' => match buffer with
            | [] => 0
            | r :: _ => a r + every_8th_sum n' (drop 8 buffer)
            end
  end.

Definition reference_sum (buffer : list DataStruct) : Z :=
  every_8th_sum (length buffer) buffer.

(** The fields [a] of the buffer are [uint32_t] values. *)
Definition uint32_fields (buffer : list DataStruct) : Prop :=
  Forall (fun r => 0 <= a r < 2 ^ 32) buffer.

(** Every offset of the sequence is an index of the buffer. *)
Definition in_bounds (buffer : list DataStruct) (idxs : list Z) : Prop :=
  Forall (fun v => 0 <= v < Z.of_nat (length buffer)) idxs.

(** ** The order of the samples *)

(** [x <= y] for the comparison the sort uses: [x > y] is false. *)
Definition not_gt {T : Type} (gt : T -> T -> bool) (x y : T) : Prop := gt x y = false.

(** The number of samples strictly below [m], and the number of samples that
    are not above [m]. *)
Definition count_below {T : Type} (gt : T -> T -> bool) (m : T) (l : list T) : nat :=
  length (filter (fun x => gt m x = true) l).

Definition count_not_above {T : Type} (gt : T -> T -> bool) (m : T) (l : list T) : nat :=
  length (filter (fun x => gt x m = false) l).

(** ** The buffer after its initialisation *)

(** The record the initialisation loop stores in cell [i]: the eight values
    [rand()] gives from call [8 * i] on after [srand(12345)], as [uint32_t]. *)
Definition seeded_record (hst : host) (i : Z) : DataStruct :=
  let v (k : nat) := to_uint32 (rand_seq hst 12345 (Z.to_nat (8 * i) + k)) in
  mkDataStruct (v 0%nat) (v 1%nat) (v 2%nat) (v 3%nat)
               (v 4%nat) (v 5%nat) (v 6%nat) (v 7%nat).

Definition seeded_buffer (hst : host) (N : Z) : list DataStruct :=
  seeded_record hst <$> seqZ 0 N.

(** ** The state after one benchmark *)

(** [benchmark_pattern] reads the clock twice for each of the
    [NUM_ITERATIONS] timed passes and prints one line. *)
Definition finished (name : string) (median : float) (st : machine) : machine :=
  set_stdout (stdout st ++ [PatternLine name median])
    (set_clock_calls (clock_calls st + Z.to_nat (2 * NUM_ITERATIONS)) st).

(** ** The state after a generator *)

(** The sequence each pattern leaves in [indices], for a sequence of length [L]
    and the state [st] the generator starts from (only Random looks at it, for
    the state of libc's generator). *)
Definition pattern_sequence (hst : host) (L : Z) (p : pattern) (st : machine) : list Z :=
  match p with
  | Sequential => offsets sequential_offset L
  | Backward => offsets (backward_offset L) L
  | Interleaved => offsets (interleaved_offset L) L
  | Bouncing => offsets (bouncing_offset L) L
  | Random => random_sequence hst (rand_seed st) (rand_calls st) L
  end.

(** The number of calls of [rand()] a generator makes. *)
Definition pattern_draws (L : Z) (p : pattern) : nat :=
  match p with
  | Random => Z.to_nat (L - 1)
  | _ => 0%nat
  end.

Definition generated (hst : host) (L : Z) (p : pattern) (st : machine) : machine :=
  set_rand (rand_seed st) (rand_calls st + pattern_draws L p)
    (set_indices (pattern_sequence hst L p st) st).

(** The two blocks have the sizes [main] asked for, and the fields [a] are
    [uint32_t] values. *)
Definition ready (N : Z) (st : machine) : Prop :=
  length (arr st) = Z.to_nat N /\
  length (indices st) = Z.to_nat (N / 8) /\
  uint32_fields (arr st).

(** [malloc] returned two blocks of the sizes asked for. *)
Definition allocated (N : Z) (hst : host) : Prop :=
  exists block_arr block_indices,
    malloc_arr hst = Some block_arr /\
    malloc_indices hst = Some block_indices /\
    length block_arr = Z.to_nat N /\
    length block_indices = Z.to_nat (N / 8).

(** [malloc] returns a null pointer or a block of the size asked for. *)
Definition malloc_sized (N : Z) (hst : host) : Prop :=
  (forall block, malloc_arr hst = Some block -> length block = Z.to_nat N) /\
  (forall block, malloc_indices hst = Some block -> length block = Z.to_nat (N / 8)).

(** ** Invariants of the loops *)

(** [st] is [st0] with the first [m] cells of [indices] holding [fn 0], ...,
    [fn (m-1)]; nothing else differs. *)
Definition written (fn : Z -> Z) (m : Z) (st0 st : machine) : Prop :=
  st = set_indices (indices st) st0 /\
  length (indices st) = length (indices st0) /\
  forall k, 0 <= k < m -> indices st !! Z.to_nat k = Some (fn k).

(** The state after the shuffle: [L - 1] more calls of [rand], and the Random
    sequence in [indices]. *)
Definition shuffled (hst : host) (L : Z) (st : machine) : machine :=
  set_rand (rand_seed st) (rand_calls st + Z.to_nat (L - 1))
    (set_indices (random_sequence hst (rand_seed st) (rand_calls st) L) st).

(** The array after [compare_exchange] at [j]: the larger of the two cells is
    in cell [j + 1]. *)
Definition exchanged {T : Type} (gt : T -> T -> bool) (j : nat) (x y : T) (t : list T) : list T :=
  if gt x y then <[S j := x]> (<[j := y]> t) else t.

(** Every cell after position [m] holds a sample that is not below any
    sample before it. *)
Definition settled_after {T : Type} (gt : T -> T -> bool) (m : Z) (t : list T) : Prop :=
  forall (p q : nat) (x y : T),
    (p < q)%nat -> m < Z.of_nat q ->
    t !! p = Some x -> t !! q = Some y -> not_gt gt x y.

(** Cell [j] holds a sample that is not below any sample before it. *)
Definition max_at {T : Type} (gt : T -> T -> bool) (j : Z) (t : list T) : Prop :=
  forall (k : nat) (x y : T),
    Z.of_nat k < j -> t !! k = Some x -> t !! Z.to_nat j = Some y -> not_gt gt x y.

(** Sorted: no sample is above a later one. *)
Definition ascending {T : Type} (gt : T -> T -> bool) (t : list T) : Prop :=
  settled_after gt 0 t.

(** ** Concrete hosts and states, to run the definitions on *)

(** A generator in the style of libc's: a function of the seed and of the
    number of calls since [srand]. *)
Definition sample_rand (seed : Z) (n : nat) : Z :=
  (seed * 1103515245 + Z.of_nat n * 12345 + 6789) mod 2 ^ 31.

Definition blank_record : DataStruct := mkDataStruct 0 0 0 0 0 0 0 0.
Definition stale_record : DataStruct := mkDataStruct 7 7 7 7 7 7 7 7.

(** A POSIX host whose clock advances by a second at each read, with the
    blocks of [malloc] zero-filled. *)
Definition posix_host : host :=
  mkHost Posix sample_rand
    (fun n => mkTimeval (1700000000 + Z.of_nat n) 0)
    (fun _ => 0) (fun _ => 1)
    (Some (replicate (Z.to_nat ARRAY_SIZE) blank_record))
    (Some (replicate (Z.to_nat (ARRAY_SIZE / 8)) 0)).

(** A Windows host with the same libc generator, another clock and other
    leftovers in the blocks of [malloc]. *)
Definition win32_host : host :=
  mkHost Win32 sample_rand
    (fun _ => mkTimeval 0 0)
    (fun n => 5000 + 3 * Z.of_nat n) (fun _ => 10000000)
    (Some (replicate (Z.to_nat ARRAY_SIZE) stale_record))
    (Some (replicate (Z.to_nat (ARRAY_SIZE / 8)) 123456789)).

(** A POSIX host whose calendar clock is set back by half a second between
    the first read and the second. *)
Definition stepped_back_host : host :=
  mkHost Posix sample_rand
    (fun n => match n with
              | O => mkTimeval 100 0
              | S _ => mkTimeval 99 500000
              end)
    (fun _ => 0) (fun _ => 1) None None.

(** The state of a program that has its two blocks, before any generator. *)
Definition fresh_state : machine :=
  mkMachine (replicate (Z.to_nat ARRAY_SIZE) blank_record)
            (replicate (Z.to_nat (ARRAY_SIZE / 8)) 0)
            42 0 0 [] [].

(** The samples of the specification's example. *)
Definition example_samples : list float := [5; 1; 4; 2; 8; 9; 3; 7; 6; 0]%float.

(** A small host: a buffer of 64 records whose field [a] is [1000 + 10 * i],
    so a sequence of 8 offsets. *)
Definition small_buffer : list DataStruct :=
  (fun i => mkDataStruct (1000 + 10 * i) 0 0 0 0 0 0 0) <$> seqZ 0 64.

Definition small_host : host :=
  mkHost Posix sample_rand
    (fun n => mkTimeval (Z.of_nat n) 250000)
    (fun _ => 0) (fun _ => 1)
    (Some small_buffer) (Some (replicate 8 77)).

(** The small program's state once its buffer is there. *)
Definition small_state : machine := mkMachine small_buffer (replicate 8 77) 42 0 0 [] [].

(** What a computation leaves in [indices]. *)
Definition indices_after {A : Type} (m : M A) (st : machine) : option (list Z) :=
  match m st with
  | Some (_, st') => Some (indices st')
  | None => None
  end.

(** ** The generators of the C++ class

    [MemoryBenchmark::generateSequentialIndices] and the three methods after
    it, from [memory_benchmark_fixed.cpp].  [indices] is a [std::vector]: its
    [size()] is the length of the list, read again at every test of a loop and
    at every use in a body, and [operator[]] does no bounds check. *)

(** [indices.size()] *)
Definition indices_size : M Z :=
  fun st => Some (to_size_t (Z.of_nat (length (indices st))), st).

(** [for (size_t i = 0; i < indices.size(); i++) body]: the bound is the size
    at the test; no body below changes it. *)
Definition for_each_index (body : Z -> M unit) : M unit :=
  let* n := indices_size in
  for_each_up 0 n body.

Definition generateSequentialIndices : M unit :=
  for_each_index (fun i => store_index i (size_mul i 8)).

Definition generateBackwardIndices : M unit :=
  for_each_index (fun i =>
    let* n := indices_size in
    store_index i (size_mul (size_sub (size_sub n 1) i) 8)).

Definition generateInterleavedIndices : M unit :=
  let* n := indices_size in
  let half := size_div n 2 in
  for_each_up 0 half (fun i =>
    store_index (size_mul 2 i) (size_mul i 8) >>>
    store_index (size_add (size_mul 2 i) 1) (size_mul (size_add half i) 8)).

Definition generateBouncingIndices : M unit :=
  for_each_index (fun i =>
    if size_rem i 2 =? 0
    then store_index i (size_mul (size_div i 2) 8)
    else let* n := indices_size in
         store_index i (size_mul (size_sub (size_sub n 1) (size_div i 2)) 8)).

(** ** The timed samples *)

(** What [get_time] returns at the [n]-th read of the clock. *)
Definition clock_reading (hst : host) (n : nat) : float :=
  match target hst with
  | Win32 => get_time_win32 (QueryPerformanceCounter hst n)
                            (QueryPerformanceFrequency hst n)
  | Posix => get_time_posix (gettimeofday hst n)
  end.

(** The sample of the [i]-th timed pass, [(end - start) * 1000.0], when the
    clock had been read [c] times before the first timed pass. *)
Definition timed_sample (hst : host) (c : nat) (i : Z) : float :=
  PrimFloat.mul
    (PrimFloat.sub (clock_reading hst (S (c + Z.to_nat (2 * i))))
                   (clock_reading hst (c + Z.to_nat (2 * i))))
    1000%float.

Definition timed_samples (hst : host) (c : nat) : list float :=
  timed_sample hst c <$> seqZ 0 NUM_ITERATIONS.

(** All eight fields of a record are [uint32_t] values. *)
Definition uint32_record (r : DataStruct) : Prop :=
  (0 <= a r < 2 ^ 32 /\ 0 <= b r < 2 ^ 32 /\ 0 <= c r < 2 ^ 32 /\ 0 <= d r < 2 ^ 32) /\
  (0 <= e r < 2 ^ 32 /\ 0 <= f r < 2 ^ 32 /\ 0 <= g r < 2 ^ 32 /\ 0 <= h r < 2 ^ 32).

(** The lines [main] prints when the five medians are [ms] (in the order of
    the patterns): the header, one line per pattern, and the CSV block. *)
Definition report_lines (N : Z) (m1 m2 m3 m4 m5 : float) : list output :=
  [Banner; ArraySizeLine N; IterationsLine NUM_ITERATIONS;
   PatternLine "Sequential" m1; PatternLine "Backward" m2;
   PatternLine "Interleaved" m3; PatternLine "Bouncing" m4;
   PatternLine "Random" m5;
   CsvMarker; CsvHeader;
   CsvRow "Sequential" m1; CsvRow "Backward" m2;
   CsvRow "Interleaved" m3; CsvRow "Bouncing" m4;
   CsvRow "Random" m5].

(** Ten samples with a NaN and two infinities among them. *)
Definition odd_samples : list float :=
  [3; nan; 1; infinity; 2; neg_infinity; 5; 4; nan; 0]%float.

(** A vector of seven cells, as an earlier Backward pass leaves it. *)
Definition seven_cells : machine :=
  mkMachine [] [48; 40; 32; 24; 16; 8; 0] 42 0 0 [] [].

(** The small program's state after its Sequential generator. *)
Definition small_sequential_state : machine :=
  set_indices [0; 8; 16; 24; 32; 40; 48; 56] small_state.

(** Whether a comparison orders given samples: asymmetric, and negatively
    transitive, on the samples (decided by going through them). *)
Definition asymmetric_on {T : Type} (gt : T -> T -> bool) (l : list T) : bool :=
  forallb (fun x => forallb (fun y => implb (gt x y) (negb (gt y x))) l) l.

Definition negatively_transitive_on {T : Type} (gt : T -> T -> bool) (l : list T) : bool :=
  forallb (fun x => forallb (fun y => forallb (fun z =>
    implb (negb (gt x y) && negb (gt y z)) (negb (gt x z))) l) l) l.

(** The same ten samples, one of them a NaN, in two orders. *)
Definition nan_samples_down : list float := [9; 8; 7; 6; nan; 5; 4; 3; 2; 1]%float.
Definition nan_samples_up : list float := [1; 2; 3; 4; 5; 6; 7; 8; 9; nan]%float.

(** Where a double that is not a NaN lies on the number line: the infinities
    at the two ends, the two zeros together in the middle, the finite values
    by sign, then exponent, then mantissa.  [before] is the order of these
    positions. *)
Definition number_line (f : SpecFloat.spec_float) : Z * Z * Z :=
  match f with
  | SpecFloat.S754_nan => (0, 0, 0)
  | SpecFloat.S754_zero _ => (0, 0, 0)
  | SpecFloat.S754_infinity true => (-2, 0, 0)
  | SpecFloat.S754_infinity false => (2, 0, 0)
  | SpecFloat.S754_finite true m e => (-1, - e, - Z.pos m)
  | SpecFloat.S754_finite false m e => (1, e, Z.pos m)
  end.

Definition before (k1 k2 : Z * Z * Z) : Prop :=
  k1.1.1 < k2.1.1 \/
  (k1.1.1 = k2.1.1 /\ (k1.1.2 < k2.1.2 \/ (k1.1.2 = k2.1.2 /\ k1.2 < k2.2))).

(** * Properties *)

(** ** Arithmetic *)

(** Linear arithmetic with the divisions and remainders by constants that the
    index computations use. *)
Ltac dlia := Z.to_euclidean_division_equations; lia.

Lemma to_size_t_small (z : Z) : 0 <= z < 2 ^ 64 -> to_size_t z = z.
Proof. intros Hz. unfold to_size_t. now apply Z.mod_small. Qed.

Lemma to_size_t_range (z : Z) : 0 <= to_size_t z < 2 ^ 64.
Proof. unfold to_size_t. apply Z.mod_pos_bound. reflexivity. Qed.

Lemma to_uint32_range (z : Z) : 0 <= to_uint32 z < 2 ^ 32.
Proof. unfold to_uint32. apply Z.mod_pos_bound. reflexivity. Qed.

(** Removes the reductions of [size_t] arithmetic whose argument is in range. *)
Ltac size_small :=
  unfold size_add, size_sub, size_mul, size_div, size_rem;
  repeat match goal with
         | |- context [to_size_t ?x] => rewrite (to_size_t_small x) by dlia
         end.

(** ** Loops: invariants *)

Section Loops.
Context {X : Type}.
Implicit Types (body : Z -> X -> option X) (Inv : Z -> X -> Prop).

Lemma iterate_up_inv Inv body (n : nat) (lo : Z) (x : X) :
  Inv lo x ->
  (forall i y, lo <= i < lo + Z.of_nat n -> Inv i y ->
               exists y', body i y = Some y' /\ Inv (i + 1) y') ->
  exists x', iterate n 1 lo body x = Some x' /\ Inv (lo + Z.of_nat n) x'.
Proof.
  revert lo x. induction n as [|n IH]; intros lo x Hlo Hstep.
  - exists x. split; [reflexivity|]. now replace (lo + Z.of_nat 0) with lo by lia.
  - destruct (Hstep lo x) as (y & Hy & Hinv); [lia|assumption|].
    destruct (IH (lo + 1) y) as (x' & Hx' & Hfin); [assumption| |].
    + intros i z Hi Hz. apply Hstep; [lia|assumption].
    + exists x'. cbn [iterate]. rewrite Hy. split; [exact Hx'|].
      now replace (lo + Z.of_nat (S n)) with (lo + 1 + Z.of_nat n) by lia.
Qed.

Lemma iterate_down_inv Inv body (n : nat) (hi : Z) (x : X) :
  Inv hi x ->
  (forall i y, hi - Z.of_nat n < i <= hi -> Inv i y ->
               exists y', body i y = Some y' /\ Inv (i - 1) y') ->
  exists x', iterate n (-1) hi body x = Some x' /\ Inv (hi - Z.of_nat n) x'.
Proof.
  revert hi x. induction n as [|n IH]; intros hi x Hhi Hstep.
  - exists x. split; [reflexivity|]. now replace (hi - Z.of_nat 0) with hi by lia.
  - destruct (Hstep hi x) as (y & Hy & Hinv); [lia|assumption|].
    destruct (IH (hi - 1) y) as (x' & Hx' & Hfin); [assumption| |].
    + intros i z Hi Hz. apply Hstep; [lia|assumption].
    + exists x'. cbn [iterate]. rewrite Hy.
      replace (hi + -1) with (hi - 1) by lia. split; [exact Hx'|].
      now replace (hi - Z.of_nat (S n)) with (hi - 1 - Z.of_nat n) by lia.
Qed.

Lemma for_up_inv Inv body (lo hi : Z) (x : X) :
  lo <= hi ->
  Inv lo x ->
  (forall i y, lo <= i < hi -> Inv i y ->
               exists y', body i y = Some y' /\ Inv (i + 1) y') ->
  exists x', for_up lo hi body x = Some x' /\ Inv hi x'.
Proof.
  intros Hle Hlo Hstep. unfold for_up.
  destruct (iterate_up_inv Inv body (Z.to_nat (hi - lo)) lo x) as (x' & Hx' & Hfin).
  - assumption.
  - intros i y Hi. apply Hstep. lia.
  - exists x'. split; [exact Hx'|].
    now replace (lo + Z.of_nat (Z.to_nat (hi - lo))) with hi in Hfin by lia.
Qed.

Lemma for_down_inv Inv body (hi lo : Z) (x : X) :
  lo <= hi ->
  Inv hi x ->
  (forall i y, lo < i <= hi -> Inv i y ->
               exists y', body i y = Some y' /\ Inv (i - 1) y') ->
  exists x', for_down hi lo body x = Some x' /\ Inv lo x'.
Proof.
  intros Hle Hhi Hstep. unfold for_down.
  destruct (iterate_down_inv Inv body (Z.to_nat (hi - lo)) hi x) as (x' & Hx' & Hfin).
  - assumption.
  - intros i y Hi. apply Hstep. lia.
  - exists x'. split; [exact Hx'|].
    now replace (hi - Z.of_nat (Z.to_nat (hi - lo))) with lo in Hfin by lia.
Qed.
End Loops.

Section LoopsM.
Context {V : Type}.

Lemma for_upM_inv (Inv : Z -> V -> machine -> Prop) (body : Z -> V -> M V)
    (lo hi : Z) (s : V) (st : machine) :
  lo <= hi ->
  Inv lo s st ->
  (forall i v m, lo <= i < hi -> Inv i v m ->
                 exists v' m', body i v m = Some (v', m') /\ Inv (i + 1) v' m') ->
  exists s' st', for_upM lo hi body s st = Some (s', st') /\ Inv hi s' st'.
Proof.
  intros Hle Hlo Hstep. unfold for_upM.
  destruct (for_up_inv (fun i x => Inv i (fst x) (snd x)) (uncurry_body body)
              lo hi (s, st)) as ([s' st'] & Hrun & Hfin); [assumption..| |].
  - intros i [v m] Hi Hinv. destruct (Hstep i v m Hi Hinv) as (v' & m' & Hb & Hi').
    exists (v', m'). split; assumption.
  - exists s', st'. split; assumption.
Qed.

Lemma for_downM_inv (Inv : Z -> V -> machine -> Prop) (body : Z -> V -> M V)
    (hi lo : Z) (s : V) (st : machine) :
  lo <= hi ->
  Inv hi s st ->
  (forall i v m, lo < i <= hi -> Inv i v m ->
                 exists v' m', body i v m = Some (v', m') /\ Inv (i - 1) v' m') ->
  exists s' st', for_downM hi lo body s st = Some (s', st') /\ Inv lo s' st'.
Proof.
  intros Hle Hhi Hstep. unfold for_downM.
  destruct (for_down_inv (fun i x => Inv i (fst x) (snd x)) (uncurry_body body)
              hi lo (s, st)) as ([s' st'] & Hrun & Hfin); [assumption..| |].
  - intros i [v m] Hi Hinv. destruct (Hstep i v m Hi Hinv) as (v' & m' & Hb & Hi').
    exists (v', m'). split; assumption.
  - exists s', st'. split; assumption.
Qed.
End LoopsM.

Lemma for_each_up_inv (Inv : Z -> machine -> Prop) (body : Z -> M unit)
    (lo hi : Z) (st : machine) :
  lo <= hi ->
  Inv lo st ->
  (forall i m, lo <= i < hi -> Inv i m ->
               exists m', body i m = Some (tt, m') /\ Inv (i + 1) m') ->
  exists st', for_each_up lo hi body st = Some (tt, st') /\ Inv hi st'.
Proof.
  intros Hle Hlo Hstep. unfold for_each_up.
  destruct (for_upM_inv (fun i _ m => Inv i m) (fun i _ => body i) lo hi tt st)
    as ([] & st' & Hrun & Hfin); [assumption..| |].
  - intros i v m Hi Hinv. destruct (Hstep i m Hi Hinv) as (m' & Hb & Hi').
    exists tt, m'. split; assumption.
  - exists st'. split; assumption.
Qed.

Lemma for_each_down_inv (Inv : Z -> machine -> Prop) (body : Z -> M unit)
    (hi lo : Z) (st : machine) :
  lo <= hi ->
  Inv hi st ->
  (forall i m, lo < i <= hi -> Inv i m ->
               exists m', body i m = Some (tt, m') /\ Inv (i - 1) m') ->
  exists st', for_each_down hi lo body st = Some (tt, st') /\ Inv lo st'.
Proof.
  intros Hle Hhi Hstep. unfold for_each_down.
  destruct (for_downM_inv (fun i _ m => Inv i m) (fun i _ => body i) hi lo tt st)
    as ([] & st' & Hrun & Hfin); [assumption..| |].
  - intros i v m Hi Hinv. destruct (Hstep i m Hi Hinv) as (m' & Hb & Hi').
    exists tt, m'. split; assumption.
  - exists st'. split; assumption.
Qed.

(** ** Reads and writes of the two blocks *)

Lemma store_index_ok (i v : Z) (st : machine) :
  0 <= i < Z.of_nat (length (indices st)) ->
  store_index i v st = Some (tt, set_indices (<[Z.to_nat i := v]> (indices st)) st).
Proof.
  intros Hi. unfold store_index.
  destruct (0 <=? i) eqn:E1; [|lia]. destruct (i <? _) eqn:E2; [|lia]. reflexivity.
Qed.

Lemma load_index_ok (i v : Z) (st : machine) :
  0 <= i -> indices st !! Z.to_nat i = Some v -> load_index i st = Some (v, st).
Proof.
  intros Hi Hv. unfold load_index. destruct (i <? 0) eqn:E; [lia|]. now rewrite Hv.
Qed.

Lemma load_arr_ok (i : Z) (r : DataStruct) (st : machine) :
  0 <= i -> arr st !! Z.to_nat i = Some r -> load_arr i st = Some (r, st).
Proof.
  intros Hi Hr. unfold load_arr. destruct (i <? 0) eqn:E; [lia|]. now rewrite Hr.
Qed.

Lemma store_arr_ok (i : Z) (r : DataStruct) (st : machine) :
  0 <= i < Z.of_nat (length (arr st)) ->
  store_arr i r st = Some (tt, set_arr (<[Z.to_nat i := r]> (arr st)) st).
Proof.
  intros Hi. unfold store_arr.
  destruct (0 <=? i) eqn:E1; [|lia]. destruct (i <? _) eqn:E2; [|lia]. reflexivity.
Qed.

(** ** The generators write the offsets of the specification *)

Lemma written_start (fn : Z -> Z) (st : machine) : written fn 0 st st.
Proof.
  split; [now destruct st|]. split; [reflexivity|]. intros k Hk. lia.
Qed.

Lemma written_store (fn : Z -> Z) (m i : Z) (st0 st : machine) :
  written fn m st0 st ->
  0 <= i < Z.of_nat (length (indices st0)) ->
  (forall k, 0 <= k < m -> k <> i) ->
  exists st', store_index i (fn i) st = Some (tt, st') /\
              written fn m st0 st' /\
              indices st' !! Z.to_nat i = Some (fn i).
Proof.
  intros (Hframe & Hlen & Hget) Hi Hfresh.
  eexists. split; [apply store_index_ok; lia|]. repeat split; cbn.
  - rewrite Hframe. reflexivity.
  - rewrite length_insert. exact Hlen.
  - intros k Hk. rewrite list_lookup_insert_ne; [now apply Hget|].
    specialize (Hfresh k Hk). lia.
  - apply list_lookup_insert_eq. lia.
Qed.

Lemma written_extend (fn : Z -> Z) (m : Z) (st0 st : machine) :
  written fn m st0 st ->
  indices st !! Z.to_nat m = Some (fn m) ->
  written fn (m + 1) st0 st.
Proof.
  intros (Hframe & Hlen & Hget) Hm. repeat split; try assumption.
  intros k Hk. destruct (Z.eq_dec k m) as [->|Hne]; [assumption|]. apply Hget. lia.
Qed.

Lemma written_all (fn : Z -> Z) (L : Z) (st0 st : machine) :
  length (indices st0) = Z.to_nat L ->
  written fn L st0 st ->
  st = set_indices (offsets fn L) st0.
Proof.
  intros Hlen0 (Hframe & Hlen & Hget). rewrite Hframe. f_equal.
  apply list_eq. intros n. unfold offsets. rewrite list_lookup_fmap.
  destruct (decide (Z.of_nat n < L)) as [Hn|Hn].
  - rewrite lookup_seqZ_lt by lia. cbn.
    specialize (Hget (Z.of_nat n)). rewrite Nat2Z.id in Hget. apply Hget. lia.
  - rewrite lookup_seqZ_ge by lia. cbn. apply lookup_ge_None. lia.
Qed.

(** A loop that stores [fn i] in cell [i], for [i] from [0] to [L - 1]. *)
Lemma fill_loop (fn : Z -> Z) (body : Z -> M unit) (L : Z) (st : machine) :
  0 <= L ->
  length (indices st) = Z.to_nat L ->
  (forall i m, 0 <= i < L -> body i m = store_index i (fn i) m) ->
  for_each_up 0 L body st = Some (tt, set_indices (offsets fn L) st).
Proof.
  intros HL Hlen Hbody.
  destruct (for_each_up_inv (fun i m => written fn i st m) body 0 L st)
    as (st' & Hrun & Hfin); [assumption|apply written_start| |].
  - intros i m Hi Hw. rewrite Hbody by assumption.
    destruct (written_store fn i i st m Hw) as (m' & Hst & Hw' & Hi'); [lia|lia|].
    exists m'. split; [assumption|]. now apply written_extend.
  - rewrite Hrun. f_equal. f_equal. now apply written_all.
Qed.

Section GeneratorSpecs.
Variable N : Z.
Hypothesis N_pos : 0 < N.
Hypothesis N_int : N < 2 ^ 31.

Lemma generate_sequential_indices_spec (st : machine) :
  length (indices st) = Z.to_nat (N / 8) ->
  generate_sequential_indices N st
  = Some (tt, set_indices (offsets sequential_offset (N / 8)) st).
Proof.
  intros Hlen. unfold generate_sequential_indices.
  rewrite to_size_t_small by dlia.
  apply fill_loop; [dlia|assumption|].
  intros i m Hi. unfold sequential_offset. size_small. reflexivity.
Qed.

Lemma generate_backward_indices_spec (st : machine) :
  length (indices st) = Z.to_nat (N / 8) ->
  generate_backward_indices N st
  = Some (tt, set_indices (offsets (backward_offset (N / 8)) (N / 8)) st).
Proof.
  intros Hlen. unfold generate_backward_indices.
  rewrite (to_size_t_small (N / 8)) by dlia.
  apply fill_loop; [dlia|assumption|].
  intros i m Hi. unfold backward_offset. size_small. reflexivity.
Qed.

Lemma generate_bouncing_indices_spec (st : machine) :
  length (indices st) = Z.to_nat (N / 8) ->
  generate_bouncing_indices N st
  = Some (tt, set_indices (offsets (bouncing_offset (N / 8)) (N / 8)) st).
Proof.
  intros Hlen. unfold generate_bouncing_indices. cbv zeta.
  rewrite (to_size_t_small (N / 8)) by dlia.
  apply fill_loop; [dlia|assumption|].
  intros i m Hi. unfold bouncing_offset, size_rem.
  destruct (i mod 2 =? 0); size_small; reflexivity.
Qed.

Lemma generate_interleaved_indices_spec (st : machine) :
  N mod 16 = 0 ->
  length (indices st) = Z.to_nat (N / 8) ->
  generate_interleaved_indices N st
  = Some (tt, set_indices (offsets (interleaved_offset (N / 8)) (N / 8)) st).
Proof.
  intros H16 Hlen. unfold generate_interleaved_indices. cbv zeta.
  rewrite (to_size_t_small (N / 8 / 2)) by dlia.
  set (fn := interleaved_offset (N / 8)).
  destruct (for_each_up_inv (fun i m => written fn (2 * i) st m)
              (fun i => store_index (size_mul 2 i) (size_mul i 8) >>>
                        store_index (size_add (size_mul 2 i) 1)
                                    (size_mul (size_add (N / 8 / 2) i) 8))
              0 (N / 8 / 2) st) as (st' & Hrun & Hfin).
  - dlia.
  - apply written_start.
  - intros i m Hi Hw.
    assert (E0 : size_mul i 8 = fn (2 * i)).
    { unfold fn, interleaved_offset. size_small.
      replace (2 * i mod 2 =? 0) with true by (symmetry; apply Z.eqb_eq; dlia).
      f_equal. dlia. }
    assert (E1 : size_mul (size_add (N / 8 / 2) i) 8 = fn (2 * i + 1)).
    { unfold fn, interleaved_offset. size_small.
      replace ((2 * i + 1) mod 2 =? 0) with false by (symmetry; apply Z.eqb_neq; dlia).
      f_equal. dlia. }
    assert (I0 : size_mul 2 i = 2 * i) by (size_small; reflexivity).
    assert (I1 : size_add (size_mul 2 i) 1 = 2 * i + 1) by (size_small; reflexivity).
    rewrite E0, E1, I1, I0.
    destruct (written_store fn (2 * i) (2 * i) st m Hw) as (m1 & Hs1 & Hw1 & Hg1);
      [rewrite Hlen; dlia|lia|].
    pose proof (written_extend fn (2 * i) st m1 Hw1 Hg1) as Hw1'.
    destruct (written_store fn (2 * i + 1) (2 * i + 1) st m1 Hw1') as (m2 & Hs2 & Hw2 & Hg2);
      [rewrite Hlen; dlia|lia|].
    pose proof (written_extend fn (2 * i + 1) st m2 Hw2 Hg2) as Hw2'.
    exists m2. split.
    + unfold bind. rewrite Hs1. exact Hs2.
    + now replace (2 * (i + 1)) with (2 * i + 1 + 1) by lia.
  - rewrite Hrun. f_equal. f_equal. apply written_all; [assumption|].
    now replace (2 * (N / 8 / 2)) with (N / 8) in Hfin by dlia.
Qed.
End GeneratorSpecs.

(** ** Every pattern is a permutation of the stride set *)

Lemma offsets_length (fn : Z -> Z) (L : Z) : length (offsets fn L) = Z.to_nat L.
Proof. unfold offsets. now rewrite length_fmap, length_seqZ. Qed.

Lemma offsets_lookup (fn : Z -> Z) (L i : Z) :
  0 <= i < L -> offsets fn L !! Z.to_nat i = Some (fn i).
Proof.
  intros Hi. unfold offsets. rewrite list_lookup_fmap, lookup_seqZ_lt by lia.
  cbn. do 2 f_equal. lia.
Qed.

Lemma offsets_ext (fn gn : Z -> Z) (L : Z) :
  (forall i, 0 <= i < L -> fn i = gn i) -> offsets fn L = offsets gn L.
Proof.
  intros Hext. unfold offsets. apply list_fmap_ext.
  intros n x Hx. apply lookup_seqZ in Hx. apply Hext. lia.
Qed.

Lemma stride_set_sequential (N : Z) :
  stride_set N = offsets sequential_offset (N / 8).
Proof.
  unfold stride_set. apply (offsets_ext (fun k => 8 * k)).
  intros i _. unfold sequential_offset. lia.
Qed.

Lemma elem_of_offsets (fn : Z -> Z) (L v : Z) :
  v ∈ offsets fn L <-> exists i, 0 <= i < L /\ v = fn i.
Proof.
  unfold offsets. rewrite list_elem_of_fmap. split.
  - intros (i & -> & Hi). apply elem_of_seqZ in Hi. exists i. split; [lia|reflexivity].
  - intros (i & Hi & ->). exists i. split; [reflexivity|]. apply elem_of_seqZ. lia.
Qed.

(** A sequence that visits [8 * p i] for a rearrangement [p] of the positions
    is a permutation of the sequential one. *)
Lemma offsets_rearranged (p q : Z -> Z) (L : Z) :
  (forall i, 0 <= i < L -> 0 <= p i < L /\ q (p i) = i) ->
  (forall k, 0 <= k < L -> 0 <= q k < L /\ p (q k) = k) ->
  offsets (fun i => p i * 8) L ≡ₚ offsets sequential_offset L.
Proof.
  intros Hp Hq. apply NoDup_Permutation.
  - unfold offsets. apply NoDup_fmap_2_strong; [|apply NoDup_seqZ].
    intros x y Hx Hy Heq. apply elem_of_seqZ in Hx. apply elem_of_seqZ in Hy.
    assert (Hpx : p x = p y) by lia.
    destruct (Hp x) as [_ Ex]; [lia|]. destruct (Hp y) as [_ Ey]; [lia|]. congruence.
  - unfold offsets. apply NoDup_fmap_2_strong; [|apply NoDup_seqZ].
    intros x y _ _. unfold sequential_offset. lia.
  - intros v. rewrite !elem_of_offsets. unfold sequential_offset. split.
    + intros (i & Hi & ->). exists (p i). split; [apply Hp; lia|reflexivity].
    + intros (k & Hk & ->). exists (q k). destruct (Hq k Hk) as [Hr Hpq].
      split; [assumption|]. now rewrite Hpq.
Qed.

Lemma backward_permutation (L : Z) :
  offsets (backward_offset L) L ≡ₚ offsets sequential_offset L.
Proof.
  apply (offsets_rearranged (fun i => L - 1 - i) (fun k => L - 1 - k)); intros; lia.
Qed.

Lemma interleaved_permutation (L : Z) :
  L mod 2 = 0 ->
  offsets (interleaved_offset L) L ≡ₚ offsets sequential_offset L.
Proof.
  intros Heven.
  rewrite (offsets_ext (interleaved_offset L)
             (fun i => (if i mod 2 =? 0 then i / 2 else L / 2 + i / 2) * 8)).
  - apply (offsets_rearranged _ (fun k => if k <? L / 2 then 2 * k else 2 * (k - L / 2) + 1)).
    + intros i Hi. destruct (Z.eqb_spec (i mod 2) 0) as [E|E].
      * destruct (Z.ltb_spec (i / 2) (L / 2)); dlia.
      * destruct (Z.ltb_spec (L / 2 + i / 2) (L / 2)); dlia.
    + intros k Hk. destruct (Z.ltb_spec k (L / 2)) as [E|E].
      * destruct (Z.eqb_spec ((2 * k) mod 2) 0); dlia.
      * destruct (Z.eqb_spec ((2 * (k - L / 2) + 1) mod 2) 0); dlia.
  - intros i _. unfold interleaved_offset. now destruct (i mod 2 =? 0).
Qed.

Lemma bouncing_permutation (L : Z) :
  offsets (bouncing_offset L) L ≡ₚ offsets sequential_offset L.
Proof.
  rewrite (offsets_ext (bouncing_offset L)
             (fun i => (if i mod 2 =? 0 then i / 2 else L - 1 - i / 2) * 8)).
  - apply (offsets_rearranged _
             (fun k => if k <? (L + 1) / 2 then 2 * k else 2 * (L - 1 - k) + 1)).
    + intros i Hi. destruct (Z.eqb_spec (i mod 2) 0) as [E|E].
      * destruct (Z.ltb_spec (i / 2) ((L + 1) / 2)); dlia.
      * destruct (Z.ltb_spec (L - 1 - i / 2) ((L + 1) / 2)); dlia.
    + intros k Hk. destruct (Z.ltb_spec k ((L + 1) / 2)) as [E|E].
      * destruct (Z.eqb_spec ((2 * k) mod 2) 0); dlia.
      * destruct (Z.eqb_spec ((2 * (L - 1 - k) + 1) mod 2) 0); dlia.
  - intros i _. unfold bouncing_offset. now destruct (i mod 2 =? 0).
Qed.

(** *** The shuffle *)

Lemma swap_positions_length (l : list Z) (i j : nat) :
  length (swap_positions l i j) = length l.
Proof.
  unfold swap_positions. destruct (l !! i), (l !! j); try reflexivity.
  now rewrite !length_insert.
Qed.

Lemma swap_positions_permutation (l : list Z) (i j : nat) :
  swap_positions l i j ≡ₚ l.
Proof.
  unfold swap_positions.
  destruct (l !! i) as [x|] eqn:Ei; [|reflexivity].
  destruct (l !! j) as [y|] eqn:Ej; [|reflexivity].
  now apply Permutation_insert_swap.
Qed.

(** The two assignments of the source after [temp = indices[i]] are the
    exchange of positions [i] and [j]. *)
Lemma swap_positions_stores (l : list Z) (i j : nat) (x y : Z) :
  l !! i = Some x -> l !! j = Some y ->
  <[j := x]> (<[i := y]> l) = swap_positions l i j.
Proof.
  intros Ei Ej. unfold swap_positions. rewrite Ei, Ej.
  destruct (decide (i = j)) as [->|Hne].
  - assert (x = y) by congruence. subst y. reflexivity.
  - now apply list_insert_insert_ne.
Qed.

Lemma fisher_yates_length (draw : nat -> Z) (n k : nat) (l : list Z) :
  length (fisher_yates draw k n l) = length l.
Proof.
  revert k l. induction n as [|n IH]; intros k l; [reflexivity|].
  cbn [fisher_yates]. cbv zeta. rewrite IH. apply swap_positions_length.
Qed.

Lemma fisher_yates_permutation (draw : nat -> Z) (n k : nat) (l : list Z) :
  fisher_yates draw k n l ≡ₚ l.
Proof.
  revert k l. induction n as [|n IH]; intros k l; [reflexivity|].
  cbn [fisher_yates]. cbv zeta. rewrite IH. apply swap_positions_permutation.
Qed.

Lemma random_sequence_length (hst : host) (seed : Z) (calls : nat) (L : Z) :
  length (random_sequence hst seed calls L) = Z.to_nat L.
Proof. unfold random_sequence. rewrite fisher_yates_length. apply offsets_length. Qed.

Lemma random_permutation (hst : host) (seed : Z) (calls : nat) (L : Z) :
  random_sequence hst seed calls L ≡ₚ offsets sequential_offset L.
Proof. apply fisher_yates_permutation. Qed.

Lemma fisher_yates_step (draw : nat -> Z) (k : nat) (i : Z) (l : list Z) :
  0 < i ->
  fisher_yates draw k (Z.to_nat i) l
  = fisher_yates draw (S k) (Z.to_nat (i - 1))
      (swap_positions l (Z.to_nat i) (Z.to_nat (draw k mod (i + 1)))).
Proof.
  intros Hi. replace (Z.to_nat i) with (S (Z.to_nat (i - 1))) at 1 by lia.
  cbn [fisher_yates]. cbv zeta.
  replace (S (Z.to_nat (i - 1))) with (Z.to_nat i) by lia.
  now rewrite Z2Nat.id by lia.
Qed.

Lemma generate_random_indices_spec (N : Z) (hst : host) (st : machine) :
  8 <= N < 2 ^ 31 ->
  length (indices st) = Z.to_nat (N / 8) ->
  generate_random_indices N hst st = Some (tt, shuffled hst (N / 8) st).
Proof.
  intros HN Hlen. unfold generate_random_indices, bind.
  rewrite generate_sequential_indices_spec by (assumption || lia).
  rewrite (to_size_t_small (N / 8 - 1)) by dlia.
  set (L := N / 8) in *. set (seed := rand_seed st). set (c0 := rand_calls st).
  set (st1 := set_indices (offsets sequential_offset L) st).
  set (body := fun i : Z => _).
  destruct (for_each_down_inv
    (fun i m =>
       m = set_rand seed (rand_calls m) (set_indices (indices m) st) /\
       length (indices m) = Z.to_nat L /\
       Z.of_nat (rand_calls m) = Z.of_nat c0 + (L - 1 - i) /\
       fisher_yates (draws hst seed) (rand_calls m) (Z.to_nat i) (indices m)
       = random_sequence hst seed c0 L)
    body (L - 1) 0 st1) as (st' & Hrun & Hframe & Hlen' & Hcalls & Hfy).
  - subst L. dlia.
  - repeat split.
    + subst st1. cbn. apply offsets_length.
    + subst st1 c0. cbn. lia.
  - intros i m Hi (Hframe & Hl & Hcalls & Hfy).
    assert (Hseed : rand_seed m = seed) by (rewrite Hframe; reflexivity).
    set (l := indices m) in *. set (k := rand_calls m) in *.
    set (r := rand_seq hst seed k).
    set (j := size_rem (to_size_t r) (size_add i 1)).
    assert (Hj : 0 <= j <= i /\ j = draws hst seed k mod (i + 1)).
    { subst j. unfold size_rem, size_add, draws. fold r.
      rewrite (to_size_t_small (i + 1)) by (subst L; dlia).
      pose proof (to_size_t_range r). split; [|reflexivity].
      pose proof (Z.mod_pos_bound (to_size_t r) (i + 1)). lia. }
    destruct Hj as [Hj Hjd].
    destruct (lookup_lt_is_Some_2 l (Z.to_nat i)) as [x Hx]; [lia|].
    destruct (lookup_lt_is_Some_2 l (Z.to_nat j)) as [y Hy]; [lia|].
    set (m1 := set_rand seed (S k) m).
    exists (set_indices (swap_positions l (Z.to_nat i) (Z.to_nat j)) m1).
    split.
    + subst body. cbv beta. unfold rand. fold k. rewrite Hseed. fold r. fold j. fold m1.
      rewrite (load_index_ok i x) by (cbn; first [lia|exact Hx]).
      rewrite (load_index_ok j y) by (cbn; first [lia|exact Hy]).
      rewrite store_index_ok by (cbn; fold l; lia).
      rewrite store_index_ok by (cbn; fold l; rewrite length_insert; lia).
      cbn. fold l. rewrite (swap_positions_stores l _ _ x y Hx Hy).
      reflexivity.
    + cbn. repeat split.
      * subst m1. rewrite Hframe. reflexivity.
      * rewrite swap_positions_length. exact Hl.
      * lia.
      * rewrite <- Hfy. rewrite (fisher_yates_step _ k i l) by lia.
        now rewrite <- Hjd.
  - rewrite Hrun. f_equal. f_equal.
    rewrite Hframe. unfold shuffled. fold seed c0 L.
    change (indices st' = random_sequence hst seed c0 L) in Hfy. rewrite Hfy.
    replace (rand_calls st') with (c0 + Z.to_nat (L - 1))%nat by (subst L; dlia).
    reflexivity.
Qed.

(** ** The read-sum pass *)

Lemma exact_sum_snoc (buffer : list DataStruct) (idxs : list Z) (idx : Z) :
  exact_sum buffer (idxs ++ [idx]) = exact_sum buffer idxs + field_a_at buffer idx.
Proof.
  unfold exact_sum. rewrite fmap_app, foldr_app. cbn.
  generalize (field_a_at buffer idx). induction (field_a_at buffer <$> idxs) as [|x l IH];
    intros z; cbn; [lia|]. rewrite IH. lia.
Qed.

Lemma field_a_at_range (buffer : list DataStruct) (idx : Z) :
  uint32_fields buffer -> 0 <= field_a_at buffer idx < 2 ^ 32.
Proof.
  intros Hu. unfold field_a_at. destruct (buffer !! Z.to_nat idx) as [r|] eqn:E; [|lia].
  unfold uint32_fields in Hu. rewrite Forall_lookup in Hu. exact (Hu _ _ E).
Qed.

Lemma exact_sum_bound (buffer : list DataStruct) (idxs : list Z) :
  uint32_fields buffer ->
  0 <= exact_sum buffer idxs <= Z.of_nat (length idxs) * (2 ^ 32 - 1).
Proof.
  intros Hu. induction idxs as [|idx idxs IH]; [cbn; lia|].
  change (exact_sum buffer (idx :: idxs))
    with (field_a_at buffer idx + exact_sum buffer idxs).
  pose proof (field_a_at_range buffer idx Hu). cbn [length]. lia.
Qed.

(** One pass returns the mathematical sum: the 64-bit accumulator never wraps,
    no read leaves the two blocks, and the state is as before. *)
Lemma read_sum_pass_spec (count : Z) (st : machine) :
  0 <= count <= 2 ^ 32 ->
  length (indices st) = Z.to_nat count ->
  in_bounds (arr st) (indices st) ->
  uint32_fields (arr st) ->
  read_sum_pass count st = Some (exact_sum (arr st) (indices st), st).
Proof.
  intros Hc Hlen Hb Hu. unfold read_sum_pass.
  destruct (for_upM_inv
    (fun j sum m => m = st /\ sum = exact_sum (arr st) (take (Z.to_nat j) (indices st)))
    (fun j sum => let* idx := load_index j in
                  let* r := load_arr idx in
                  ret (to_uint64 (sum + a r)))
    0 count 0 st) as (sum & st' & Hrun & -> & Hsum).
  - lia.
  - split; reflexivity.
  - intros j v m Hj (-> & ->).
    destruct (lookup_lt_is_Some_2 (indices st) (Z.to_nat j)) as [idx Hidx]; [lia|].
    assert (Hin : 0 <= idx < Z.of_nat (length (arr st))).
    { unfold in_bounds in Hb. rewrite Forall_lookup in Hb. exact (Hb _ _ Hidx). }
    destruct (lookup_lt_is_Some_2 (arr st) (Z.to_nat idx)) as [r Hr]; [lia|].
    eexists _, st. split.
    + unfold bind. rewrite (load_index_ok j idx) by (lia || assumption).
      rewrite (load_arr_ok idx r) by (lia || assumption). reflexivity.
    + split; [reflexivity|].
      replace (Z.to_nat (j + 1)) with (S (Z.to_nat j)) by lia.
      rewrite (take_S_r _ _ _ Hidx), exact_sum_snoc.
      assert (Ea : field_a_at (arr st) idx = a r) by (unfold field_a_at; now rewrite Hr).
      rewrite Ea.
      pose proof (exact_sum_bound (arr st) (take (Z.to_nat j) (indices st)) Hu) as Hbound.
      rewrite length_take in Hbound.
      pose proof (field_a_at_range (arr st) idx Hu) as Hf. rewrite Ea in Hf.
      unfold to_uint64. apply Z.mod_small. nia.
  - rewrite Hrun. rewrite firstn_all2 in Hsum by lia. now rewrite Hsum.
Qed.

(** *** The reference sum *)

Lemma offsets_succ (fn : Z -> Z) (n : nat) :
  offsets fn (Z.of_nat (S n)) = fn 0 :: offsets (fun i => fn (i + 1)) (Z.of_nat n).
Proof.
  unfold offsets. rewrite seqZ_cons by lia. cbn [fmap list_fmap]. f_equal.
  replace (Z.pred (Z.of_nat (S n))) with (Z.of_nat n) by lia.
  change (Z.succ 0) with (1 + 0). rewrite <- fmap_add_seqZ, <- list_fmap_compose.
  apply list_fmap_ext. intros k x _. cbn. f_equal. lia.
Qed.

Lemma exact_sum_drop_8 (buffer : list DataStruct) (n : Z) :
  exact_sum (drop 8 buffer) (offsets sequential_offset n)
  = exact_sum buffer (offsets (fun i => sequential_offset (i + 1)) n).
Proof.
  unfold exact_sum, offsets. rewrite <- !list_fmap_compose. f_equal.
  apply list_fmap_ext. intros k x Hx. apply lookup_seqZ in Hx. cbn.
  unfold field_a_at, sequential_offset. rewrite lookup_drop.
  replace (8 + Z.to_nat (x * 8))%nat with (Z.to_nat ((x + 1) * 8)) by lia.
  reflexivity.
Qed.

Lemma every_8th_sum_sequential (n fuel : nat) (buffer : list DataStruct) :
  (n <= fuel)%nat ->
  length buffer = (8 * n)%nat ->
  every_8th_sum fuel buffer
  = exact_sum buffer (offsets sequential_offset (Z.of_nat n)).
Proof.
  revert fuel buffer. induction n as [|n IH]; intros fuel buffer Hf Hlen.
  - destruct buffer; [|discriminate]. now destruct fuel.
  - destruct fuel as [|fuel]; [lia|]. destruct buffer as [|r rest] eqn:E; [discriminate|].
    rewrite <- E in *. cbn [every_8th_sum]. rewrite E at 1. rewrite offsets_succ.
    change (exact_sum buffer (sequential_offset 0 :: ?l))
      with (field_a_at buffer (sequential_offset 0) + exact_sum buffer l).
    rewrite <- exact_sum_drop_8, <- (IH fuel (drop 8 buffer)); [|lia|rewrite length_drop; lia].
    f_equal. unfold field_a_at, sequential_offset. now rewrite E.
Qed.

Lemma reference_sum_sequential (N : Z) (buffer : list DataStruct) :
  0 <= N -> N mod 8 = 0 ->
  length buffer = Z.to_nat N ->
  reference_sum buffer = exact_sum buffer (offsets sequential_offset (N / 8)).
Proof.
  intros HN H8 Hlen. unfold reference_sum.
  rewrite (every_8th_sum_sequential (Z.to_nat (N / 8))); [|dlia|dlia].
  now rewrite Z2Nat.id by dlia.
Qed.

(** ** The bubble sort *)

Lemma filter_none {A : Type} (P : A -> Prop) `{forall x, Decision (P x)} (l : list A) :
  (forall x, x ∈ l -> ~ P x) -> filter P l = [].
Proof.
  induction l as [|x l IH]; intros Hall; [reflexivity|].
  rewrite filter_cons_False by (apply Hall; left).
  apply IH. intros y Hy. apply Hall. now right.
Qed.

Lemma filter_all {A : Type} (P : A -> Prop) `{forall x, Decision (P x)} (l : list A) :
  (forall x, x ∈ l -> P x) -> filter P l = l.
Proof.
  induction l as [|x l IH]; intros Hall; [reflexivity|].
  rewrite filter_cons_True by (apply Hall; left).
  f_equal. apply IH. intros y Hy. apply Hall. now right.
Qed.

(** What the sort is shown to do is shown for a comparison that orders the
    samples at hand: nothing is asked of it on values that are not among them
    (on doubles, [>] orders any samples without a NaN). *)
Section SortSpec.
Context {T : Type} (gt : T -> T -> bool) (samples : list T).
Hypothesis gt_asym :
  forall x y, x ∈ samples -> y ∈ samples -> gt x y = true -> gt y x = false.
Hypothesis not_gt_trans :
  forall x y z, x ∈ samples -> y ∈ samples -> z ∈ samples ->
    gt x y = false -> gt y z = false -> gt x z = false.

Lemma not_gt_refl (x : T) : x ∈ samples -> gt x x = false.
Proof.
  intros Hx. destruct (gt x x) eqn:E; [|reflexivity].
  now rewrite (gt_asym x x Hx Hx E) in E.
Qed.

Lemma compare_exchange_ok (j : Z) (x y : T) (t : list T) :
  0 <= j ->
  t !! Z.to_nat j = Some x ->
  t !! S (Z.to_nat j) = Some y ->
  compare_exchange gt j t = Some (exchanged gt (Z.to_nat j) x y t).
Proof.
  intros Hj Hx Hy. unfold compare_exchange, exchanged.
  destruct (j <? 0) eqn:E; [lia|].
  replace (Z.to_nat (j + 1)) with (S (Z.to_nat j)) by lia.
  rewrite Hx, Hy. now destruct (gt x y).
Qed.

Lemma exchanged_length (j : nat) (x y : T) (t : list T) :
  length (exchanged gt j x y t) = length t.
Proof. unfold exchanged. destruct (gt x y); [|reflexivity]. now rewrite !length_insert. Qed.

Lemma exchanged_permutation (j : nat) (x y : T) (t : list T) :
  t !! j = Some x -> t !! S j = Some y -> exchanged gt j x y t ≡ₚ t.
Proof.
  intros Hx Hy. unfold exchanged. destruct (gt x y); [|reflexivity].
  now apply Permutation_insert_swap.
Qed.

Lemma exchanged_other (j k : nat) (x y : T) (t : list T) :
  k <> j -> k <> S j -> exchanged gt j x y t !! k = t !! k.
Proof.
  intros H1 H2. unfold exchanged. destruct (gt x y); [|reflexivity].
  rewrite !list_lookup_insert_ne by lia. reflexivity.
Qed.

Lemma exchanged_low (j : nat) (x y : T) (t : list T) :
  t !! j = Some x -> t !! S j = Some y ->
  exchanged gt j x y t !! j = Some (if gt x y then y else x).
Proof.
  intros Hx Hy. unfold exchanged. destruct (gt x y); [|assumption].
  rewrite list_lookup_insert_ne by lia. apply list_lookup_insert_eq.
  now apply lookup_lt_Some in Hx.
Qed.

Lemma exchanged_high (j : nat) (x y : T) (t : list T) :
  t !! j = Some x -> t !! S j = Some y ->
  exchanged gt j x y t !! S j = Some (if gt x y then x else y).
Proof.
  intros Hx Hy. unfold exchanged. destruct (gt x y); [|assumption].
  apply list_lookup_insert_eq. rewrite length_insert. now apply lookup_lt_Some in Hy.
Qed.

Lemma exchanged_settled (m : Z) (j : nat) (x y : T) (t : list T) :
  Z.of_nat (S j) <= m ->
  t !! j = Some x -> t !! S j = Some y ->
  settled_after gt m t -> settled_after gt m (exchanged gt j x y t).
Proof.
  intros Hjm Hx Hy Hs p q u v Hpq Hq Hp Hv.
  rewrite exchanged_other in Hv by lia.
  destruct (decide (p = j)) as [->|Hpj].
  - rewrite (exchanged_low j x y t Hx Hy) in Hp. injection Hp as <-.
    destruct (gt x y); [exact (Hs (S j) q y v ltac:(lia) Hq Hy Hv)
                       |exact (Hs j q x v ltac:(lia) Hq Hx Hv)].
  - destruct (decide (p = S j)) as [->|Hpj'].
    + rewrite (exchanged_high j x y t Hx Hy) in Hp. injection Hp as <-.
      destruct (gt x y); [exact (Hs j q x v ltac:(lia) Hq Hx Hv)
                         |exact (Hs (S j) q y v ltac:(lia) Hq Hy Hv)].
    + rewrite exchanged_other in Hp by assumption. exact (Hs p q u v Hpq Hq Hp Hv).
Qed.

Lemma exchanged_max (j : nat) (x y : T) (t : list T) :
  t ⊆ samples ->
  t !! j = Some x -> t !! S j = Some y ->
  max_at gt (Z.of_nat j) t -> max_at gt (Z.of_nat j + 1) (exchanged gt j x y t).
Proof.
  intros Hsub Hx Hy Hmax k u v Hk Hu Hv.
  assert (Sx : x ∈ samples) by (apply Hsub, list_elem_of_lookup; eauto).
  assert (Sy : y ∈ samples) by (apply Hsub, list_elem_of_lookup; eauto).
  replace (Z.to_nat (Z.of_nat j + 1)) with (S j) in Hv by lia.
  rewrite (exchanged_high j x y t Hx Hy) in Hv. injection Hv as <-.
  destruct (decide (k = j)) as [->|Hkj].
  - rewrite (exchanged_low j x y t Hx Hy) in Hu. injection Hu as <-.
    unfold not_gt. destruct (gt x y) eqn:E; [now apply gt_asym|exact E].
  - rewrite exchanged_other in Hu by lia.
    assert (Su : u ∈ samples) by (apply Hsub, list_elem_of_lookup; eauto).
    assert (Hux : not_gt gt u x).
    { apply (Hmax k u x); [lia|assumption|now rewrite Nat2Z.id]. }
    unfold not_gt in *. destruct (gt x y) eqn:E; [assumption|].
    exact (not_gt_trans u x y Su Sx Sy Hux E).
Qed.

(** One pass of the inner loop, over the cells [0 .. m]. *)
Lemma inner_loop_spec (m : Z) (t : list T) :
  t ⊆ samples ->
  0 <= m < Z.of_nat (length t) ->
  settled_after gt m t ->
  exists t', for_up 0 m (compare_exchange gt) t = Some t' /\
             length t' = length t /\ t' ≡ₚ t /\ settled_after gt (m - 1) t'.
Proof.
  intros Hsub Hm Hs.
  destruct (for_up_inv
    (fun j t' => length t' = length t /\ t' ≡ₚ t /\ settled_after gt m t' /\ max_at gt j t')
    (compare_exchange gt) 0 m t) as (t' & Hrun & Hlen & Hperm & Hs' & Hmax).
  - lia.
  - split; [reflexivity|]. split; [reflexivity|]. split; [assumption|].
    intros k x y Hk. lia.
  - intros j u Hj (Hlen & Hperm & Hsu & Hmax).
    destruct (lookup_lt_is_Some_2 u (Z.to_nat j)) as [x Hx]; [lia|].
    destruct (lookup_lt_is_Some_2 u (S (Z.to_nat j))) as [y Hy]; [lia|].
    exists (exchanged gt (Z.to_nat j) x y u). split; [apply compare_exchange_ok; (lia || assumption)|].
    split; [|split; [|split]].
    + now rewrite exchanged_length.
    + now rewrite exchanged_permutation.
    + apply exchanged_settled; (lia || assumption).
    + replace j with (Z.of_nat (Z.to_nat j)) at 1 by lia.
      apply exchanged_max; try assumption; [|now rewrite Z2Nat.id by lia].
      intros v Hv. apply Hsub. now rewrite <- Hperm.
  - exists t'. split; [assumption|]. split; [assumption|]. split; [assumption|].
    intros p q x y Hpq Hq Hp Hy.
    destruct (decide (Z.of_nat q = m)) as [E|E].
    + apply (Hmax p x y); [lia|assumption|]. now rewrite <- E, Nat2Z.id.
    + apply (Hs' p q x y); (lia || assumption).
Qed.

Lemma bubble_sort_spec (n : Z) (t : list T) :
  t ⊆ samples ->
  1 <= n -> length t = Z.to_nat n ->
  exists s, bubble_sort gt n t = Some s /\
            length s = length t /\ s ≡ₚ t /\ ascending gt s.
Proof.
  intros Hsub Hn Hlen. unfold bubble_sort.
  destruct (for_up_inv
    (fun i t' => length t' = length t /\ t' ≡ₚ t /\ settled_after gt (n - 1 - i) t')
    (fun i => for_up 0 (n - i - 1) (compare_exchange gt)) 0 (n - 1) t)
    as (s & Hrun & Hl & Hp & Hs).
  - lia.
  - split; [reflexivity|]. split; [reflexivity|].
    intros p q x y Hpq Hq _ Hy. apply lookup_lt_Some in Hy. lia.
  - intros i u Hi (Hl & Hp & Hs).
    destruct (inner_loop_spec (n - i - 1) u) as (u' & Hrun & Hl' & Hp' & Hs').
    + intros v Hv. apply Hsub. now rewrite <- Hp.
    + lia.
    + now replace (n - i - 1) with (n - 1 - i) by lia.
    + exists u'. split; [assumption|]. split; [|split].
      * congruence.
      * now rewrite Hp'.
      * now replace (n - 1 - (i + 1)) with (n - i - 1 - 1) by lia.
  - exists s. split; [assumption|]. split; [assumption|]. split; [assumption|].
    now replace (n - 1 - (n - 1)) with 0 in Hs by lia.
Qed.

Lemma ascending_StronglySorted (s : list T) :
  ascending gt s -> StronglySorted (not_gt gt) s.
Proof.
  induction s as [|x s IH]; intros Hs; constructor.
  - apply IH. intros p q u v Hpq Hq Hu Hv.
    apply (Hs (S p) (S q) u v); (lia || assumption).
  - apply Forall_lookup. intros k y Hy. apply (Hs 0%nat (S k) x y); (lia || assumption || reflexivity).
Qed.

(** In a sorted array, at most [k] samples are strictly below the one in
    cell [k], and at least [k + 1] samples are not above it. *)
Lemma ascending_count_below (s : list T) (k : nat) (m : T) :
  m ∈ samples ->
  ascending gt s -> s !! k = Some m -> (count_below gt m s <= k)%nat.
Proof.
  intros Sm Hs Hm. unfold count_below.
  rewrite <- (take_drop k s) at 1. rewrite filter_app, length_app.
  assert (E : filter (fun x => gt m x = true) (drop k s) = []).
  { apply filter_none. intros x Hx Hgt.
    apply list_elem_of_lookup in Hx as [i Hi]. rewrite lookup_drop in Hi.
    destruct i as [|i].
    - rewrite Nat.add_0_r, Hm in Hi. injection Hi as <-.
      now rewrite (not_gt_refl m Sm) in Hgt.
    - pose proof (Hs k (k + S i)%nat m x ltac:(lia) ltac:(lia) Hm Hi) as Hle.
      unfold not_gt in Hle. congruence. }
  rewrite E. cbn [length]. pose proof (length_filter (fun x => gt m x = true) (take k s)).
  rewrite length_take in *. lia.
Qed.

Lemma ascending_count_not_above (s : list T) (k : nat) (m : T) :
  m ∈ samples ->
  ascending gt s -> s !! k = Some m -> (k + 1 <= count_not_above gt m s)%nat.
Proof.
  intros Sm Hs Hm. unfold count_not_above.
  rewrite <- (take_drop (S k) s) at 1. rewrite filter_app, length_app.
  assert (E : filter (fun x => gt x m = false) (take (S k) s) = take (S k) s).
  { apply filter_all. intros x Hx.
    apply list_elem_of_lookup in Hx as [i Hi]. apply lookup_take_Some in Hi as [Hi Hlt].
    destruct (decide (i = k)) as [->|Hne].
    - rewrite Hm in Hi. injection Hi as <-. now apply not_gt_refl.
    - apply (Hs i k x m); (lia || assumption). }
  rewrite E, length_take. apply lookup_lt_Some in Hm. lia.
Qed.
End SortSpec.

(** The two requirements on the comparison, decided on given samples. *)
Lemma asymmetric_on_spec {T : Type} (gt : T -> T -> bool) (l : list T) :
  asymmetric_on gt l = true ->
  forall x y, x ∈ l -> y ∈ l -> gt x y = true -> gt y x = false.
Proof.
  unfold asymmetric_on. intros Hall x y Hx Hy Hgt.
  rewrite forallb_forall in Hall. apply list_elem_of_In in Hx, Hy.
  specialize (Hall x Hx). rewrite forallb_forall in Hall. specialize (Hall y Hy).
  rewrite Hgt in Hall. now destruct (gt y x).
Qed.

Lemma negatively_transitive_on_spec {T : Type} (gt : T -> T -> bool) (l : list T) :
  negatively_transitive_on gt l = true ->
  forall x y z, x ∈ l -> y ∈ l -> z ∈ l ->
    gt x y = false -> gt y z = false -> gt x z = false.
Proof.
  unfold negatively_transitive_on. intros Hall x y z Hx Hy Hz Hxy Hyz.
  rewrite forallb_forall in Hall. apply list_elem_of_In in Hx, Hy, Hz.
  specialize (Hall x Hx). rewrite forallb_forall in Hall. specialize (Hall y Hy).
  rewrite forallb_forall in Hall. specialize (Hall z Hz).
  rewrite Hxy, Hyz in Hall. now destruct (gt x z).
Qed.

(** On doubles, [<] is the order of the number line, and false as soon as
    one side is a NaN; so [>] is asymmetric, and negatively transitive
    through any value that is not a NaN. *)
Lemma SFltb_before (f1 f2 : SpecFloat.spec_float) :
  SpecFloat.SFltb f1 f2 = true <->
  f1 <> SpecFloat.S754_nan /\ f2 <> SpecFloat.S754_nan /\
  before (number_line f1) (number_line f2).
Proof.
  unfold SpecFloat.SFltb, before.
  destruct f1 as [s1|s1| |s1 m1 e1], f2 as [s2|s2| |s2 m2 e2];
    try destruct s1; try destruct s2; cbn;
    try (split; [intros; try discriminate; repeat split; try discriminate; lia
                |intros (? & ? & ?); try congruence; try reflexivity; lia]).
  - rewrite Pos.compare_cont_spec. cbn.
    destruct (Z.compare_spec e1 e2), (Pos.compare_spec m1 m2); cbn;
      (split; [intros; try discriminate; repeat split; try discriminate; lia
              |intros (? & ? & ?); try reflexivity; lia]).
  - rewrite Pos.compare_cont_spec. cbn.
    destruct (Z.compare_spec e1 e2), (Pos.compare_spec m1 m2); cbn;
      (split; [intros; try discriminate; repeat split; try discriminate; lia
              |intros (? & ? & ?); try reflexivity; lia]).
Qed.

Lemma is_nan_Prim2SF (x : float) :
  PrimFloat.is_nan x = false -> FloatOps.Prim2SF x <> SpecFloat.S754_nan.
Proof.
  unfold PrimFloat.is_nan. rewrite FloatAxioms.eqb_spec. intros H E.
  rewrite E in H. discriminate.
Qed.

Lemma double_gt_asym (x y : float) : double_gt x y = true -> double_gt y x = false.
Proof.
  unfold double_gt. rewrite !FloatAxioms.ltb_spec. intros H.
  apply SFltb_before in H as (_ & _ & H).
  destruct (SpecFloat.SFltb (FloatOps.Prim2SF x) (FloatOps.Prim2SF y)) eqn:E;
    [|reflexivity].
  apply SFltb_before in E as (_ & _ & E). unfold before in *. lia.
Qed.

Lemma double_gt_not_trans (x y z : float) :
  PrimFloat.is_nan y = false ->
  double_gt x y = false -> double_gt y z = false -> double_gt x z = false.
Proof.
  unfold double_gt. rewrite !FloatAxioms.ltb_spec. intros Hy Hxy Hyz.
  apply is_nan_Prim2SF in Hy.
  destruct (SpecFloat.SFltb (FloatOps.Prim2SF z) (FloatOps.Prim2SF x)) eqn:E;
    [|reflexivity].
  apply SFltb_before in E as (Hz & Hx & E).
  assert (A : ~ before (number_line (FloatOps.Prim2SF y)) (number_line (FloatOps.Prim2SF x))).
  { intros B. rewrite (proj2 (SFltb_before _ _)) in Hxy; [discriminate|auto]. }
  assert (B : ~ before (number_line (FloatOps.Prim2SF z)) (number_line (FloatOps.Prim2SF y))).
  { intros B. rewrite (proj2 (SFltb_before _ _)) in Hyz; [discriminate|auto]. }
  unfold before in *. lia.
Qed.

(** The sort returns, whatever the comparison answers (a NaN among the
    samples included): no cell outside the array is read or written. *)
Section SortTotal.
Context {T : Type} (gt : T -> T -> bool).

Lemma inner_loop_total (m : Z) (t : list T) :
  0 <= m < Z.of_nat (length t) ->
  exists t', for_up 0 m (compare_exchange gt) t = Some t' /\
             length t' = length t /\ t' ≡ₚ t.
Proof.
  intros Hm.
  destruct (for_up_inv (fun (_ : Z) t' => length t' = length t /\ t' ≡ₚ t)
              (compare_exchange gt) 0 m t) as (t' & Hrun & Hfin).
  - lia.
  - split; reflexivity.
  - intros j u Hj (Hlen & Hperm).
    destruct (lookup_lt_is_Some_2 u (Z.to_nat j)) as [x Hx]; [lia|].
    destruct (lookup_lt_is_Some_2 u (S (Z.to_nat j))) as [y Hy]; [lia|].
    exists (exchanged gt (Z.to_nat j) x y u).
    split; [apply compare_exchange_ok; (lia || assumption)|]. split.
    + now rewrite exchanged_length.
    + now rewrite exchanged_permutation.
  - exists t'. split; assumption.
Qed.

Lemma bubble_sort_total (n : Z) (t : list T) :
  1 <= n -> length t = Z.to_nat n ->
  exists s, bubble_sort gt n t = Some s /\ length s = length t /\ s ≡ₚ t.
Proof.
  intros Hn Hlen. unfold bubble_sort.
  destruct (for_up_inv (fun (_ : Z) t' => length t' = length t /\ t' ≡ₚ t)
              (fun i => for_up 0 (n - i - 1) (compare_exchange gt)) 0 (n - 1) t)
    as (s & Hrun & Hfin).
  - lia.
  - split; reflexivity.
  - intros i u Hi (Hl & Hp).
    destruct (inner_loop_total (n - i - 1) u) as (u' & Hrun & Hl' & Hp'); [lia|].
    exists u'. split; [assumption|]. split; [congruence|now rewrite Hp'].
  - exists s. split; assumption.
Qed.

Lemma median_time_total (times : list T) :
  length times = Z.to_nat NUM_ITERATIONS ->
  exists s median, bubble_sort gt NUM_ITERATIONS times = Some s /\
                   length s = length times /\ s ≡ₚ times /\
                   s !! Z.to_nat (NUM_ITERATIONS / 2) = Some median /\
                   median_time gt times = Some median.
Proof.
  intros Hlen.
  destruct (bubble_sort_total NUM_ITERATIONS times) as (s & Hs & Hl & Hp);
    [unfold NUM_ITERATIONS; lia|assumption|].
  destruct (lookup_lt_is_Some_2 s (Z.to_nat (NUM_ITERATIONS / 2))) as [median Hm].
  { rewrite Hl, Hlen. unfold NUM_ITERATIONS. dlia. }
  exists s, median. unfold median_time. rewrite Hs. repeat split; assumption.
Qed.
End SortTotal.

(** ** One benchmark *)

Lemma sequence_in_bounds (N : Z) (buffer : list DataStruct) (idxs : list Z) :
  0 <= N -> N mod 8 = 0 ->
  length buffer = Z.to_nat N ->
  idxs ≡ₚ offsets sequential_offset (N / 8) ->
  in_bounds buffer idxs.
Proof.
  intros HN H8 Hlen Hperm. unfold in_bounds. rewrite Hperm.
  apply Forall_forall. intros v Hv. apply elem_of_offsets in Hv as (i & Hi & ->).
  unfold sequential_offset. dlia.
Qed.

Lemma get_time_ok (hst : host) (st : machine) :
  exists t, get_time hst st = Some (t, set_clock_calls (S (clock_calls st)) st).
Proof. unfold get_time. eexists. reflexivity. Qed.

Lemma benchmark_pattern_spec (N : Z) (hst : host) (generate_func : M unit)
    (name : string) (st st1 : machine) :
  0 < N < 2 ^ 31 ->
  generate_func st = Some (tt, st1) ->
  length (indices st1) = Z.to_nat (N / 8) ->
  in_bounds (arr st1) (indices st1) ->
  uint32_fields (arr st1) ->
  exists times median,
    length times = Z.to_nat NUM_ITERATIONS /\
    median_time double_gt times = Some median /\
    benchmark_pattern N hst generate_func name st = Some (median, finished name median st1).
Proof.
  intros HN Hgen Hlen Hb Hu. unfold benchmark_pattern, bind at 1. rewrite Hgen.
  rewrite (to_size_t_small (N / 8)) by dlia.
  assert (Hcount : 0 <= N / 8 <= 2 ^ 32) by dlia.
  (* warmup *)
  destruct (for_each_up_inv (fun _ m => m = st1)
              (fun w => let* sum := read_sum_pass (N / 8) in ret tt)
              0 WARMUP_ITERATIONS st1) as (st1' & Hwarm & ->).
  { unfold WARMUP_ITERATIONS. lia. }
  { reflexivity. }
  { intros w m Hw ->. exists st1. split; [|reflexivity].
    unfold bind. now rewrite read_sum_pass_spec by assumption. }
  unfold bind at 1. rewrite Hwarm.
  (* timed passes *)
  set (body := fun (i : Z) (times : list float) => _).
  destruct (for_upM_inv
    (fun i times m =>
       m = set_clock_calls (clock_calls st1 + Z.to_nat (2 * i)) st1 /\
       length times = Z.to_nat NUM_ITERATIONS)
    body 0 NUM_ITERATIONS (replicate (Z.to_nat NUM_ITERATIONS) 0%float) st1)
    as (times & st2 & Htimed & -> & Hlt).
  { unfold NUM_ITERATIONS. lia. }
  { split; [|apply length_replicate].
    replace (clock_calls st1 + Z.to_nat (2 * 0))%nat with (clock_calls st1) by lia.
    now destruct st1. }
  { intros i times m Hi (-> & Hlt). subst body. cbv beta.
    set (m0 := set_clock_calls _ st1).
    destruct (get_time_ok hst m0) as (start & Hstart).
    set (m1 := set_clock_calls (S (clock_calls m0)) m0) in *.
    destruct (get_time_ok hst m1) as (end_ & Hend).
    eexists _, _. split.
    - unfold bind. rewrite Hstart.
      rewrite read_sum_pass_spec by assumption. rewrite Hend.
      unfold store_sample.
      destruct (0 <=? i) eqn:E1; [|lia].
      destruct (i <? Z.of_nat (length times)) eqn:E2; [|unfold NUM_ITERATIONS in *; lia].
      reflexivity.
    - split; [|now rewrite length_insert].
      subst m1 m0. unfold set_clock_calls. cbn. f_equal. lia. }
  unfold bind at 1. rewrite Htimed.
  destruct (median_time_total double_gt times Hlt) as (s & median & _ & _ & _ & _ & Hmed).
  exists times, median. split; [assumption|]. split; [assumption|].
  rewrite Hmed. reflexivity.
Qed.

(** ** The five generators, uniformly *)

Lemma pattern_sequence_length (hst : host) (L : Z) (p : pattern) (st : machine) :
  length (pattern_sequence hst L p st) = Z.to_nat L.
Proof.
  destruct p; cbn [pattern_sequence];
    first [apply offsets_length | apply random_sequence_length].
Qed.

Lemma pattern_sequence_permutation (hst : host) (L : Z) (p : pattern) (st : machine) :
  L mod 2 = 0 ->
  pattern_sequence hst L p st ≡ₚ offsets sequential_offset L.
Proof.
  intros Heven. destruct p; cbn [pattern_sequence].
  - reflexivity.
  - apply backward_permutation.
  - now apply interleaved_permutation.
  - apply bouncing_permutation.
  - apply random_permutation.
Qed.

Lemma generator_spec (N : Z) (hst : host) (p : pattern) (st : machine) :
  8 <= N < 2 ^ 31 -> N mod 16 = 0 ->
  length (indices st) = Z.to_nat (N / 8) ->
  generator N hst p st = Some (tt, generated hst (N / 8) p st).
Proof.
  intros HN H16 Hlen.
  assert (Hsame : forall l, set_indices l st
                            = set_rand (rand_seed st) (rand_calls st + 0) (set_indices l st)).
  { intros l. rewrite Nat.add_0_r. now destruct st. }
  destruct p; cbn [generator]; unfold generated; cbn [pattern_sequence pattern_draws];
    rewrite <- ?Hsame.
  - apply generate_sequential_indices_spec; (lia || assumption).
  - apply generate_backward_indices_spec; (lia || assumption).
  - apply generate_interleaved_indices_spec; (lia || assumption).
  - apply generate_bouncing_indices_spec; (lia || assumption).
  - apply generate_random_indices_spec; (lia || assumption).
Qed.

Lemma generated_ready (N : Z) (hst : host) (p : pattern) (st : machine) :
  ready N st -> ready N (generated hst (N / 8) p st).
Proof.
  intros (Ha & Hi & Hu). split; [exact Ha|]. split; [|exact Hu].
  cbn. apply pattern_sequence_length.
Qed.

Lemma finished_ready (N : Z) (name : string) (median : float) (st : machine) :
  ready N st -> ready N (finished name median st).
Proof. intros H. exact H. Qed.

Lemma benchmark_of_pattern (N : Z) (hst : host) (p : pattern) (name : string)
    (st : machine) :
  8 <= N < 2 ^ 31 -> N mod 16 = 0 ->
  ready N st ->
  exists times median,
    length times = Z.to_nat NUM_ITERATIONS /\
    median_time double_gt times = Some median /\
    benchmark_pattern N hst (generator N hst p) name st
    = Some (median, finished name median (generated hst (N / 8) p st)).
Proof.
  intros HN H16 Hready.
  pose proof (generated_ready N hst p st Hready) as (Ha & Hi & Hu).
  destruct Hready as (Ha0 & Hi0 & Hu0).
  apply (benchmark_pattern_spec N hst _ name st); try assumption.
  - lia.
  - now apply generator_spec.
  - apply (sequence_in_bounds N); [lia|dlia|assumption|].
    cbn. apply pattern_sequence_permutation. dlia.
Qed.

(** ** The initialisation of the buffer *)

Lemma tabulate_eq {A : Type} (fn : Z -> A) (L : Z) (l : list A) :
  length l = Z.to_nat L ->
  (forall k, 0 <= k < L -> l !! Z.to_nat k = Some (fn k)) ->
  l = fn <$> seqZ 0 L.
Proof.
  intros Hlen Hget. apply list_eq. intros n. rewrite list_lookup_fmap.
  destruct (decide (Z.of_nat n < L)) as [Hn|Hn].
  - rewrite lookup_seqZ_lt by lia. cbn.
    specialize (Hget (Z.of_nat n)). rewrite Nat2Z.id in Hget. apply Hget. lia.
  - rewrite lookup_seqZ_ge by lia. cbn. apply lookup_ge_None. lia.
Qed.

Lemma seeded_buffer_uint32 (hst : host) (N : Z) : uint32_fields (seeded_buffer hst N).
Proof.
  unfold uint32_fields, seeded_buffer. apply Forall_fmap, Forall_forall.
  intros i _. cbn. apply to_uint32_range.
Qed.

Lemma seeded_buffer_length (hst : host) (N : Z) :
  length (seeded_buffer hst N) = Z.to_nat N.
Proof. unfold seeded_buffer. now rewrite length_fmap, length_seqZ. Qed.

Lemma rand_on (hst : host) (seed : Z) (calls : nat) (base : machine) :
  rand hst (set_rand seed calls base)
  = Some (rand_seq hst seed calls, set_rand seed (S calls) base).
Proof. reflexivity. Qed.

Lemma initialize_array_spec (N : Z) (hst : host) (st : machine) :
  0 <= N < 2 ^ 31 ->
  length (arr st) = Z.to_nat N ->
  rand_seed st = 12345 -> rand_calls st = 0%nat ->
  initialize_array N hst st
  = Some (tt, set_rand 12345 (Z.to_nat (8 * N)) (set_arr (seeded_buffer hst N) st)).
Proof.
  intros HN Hlen Hseed Hcalls. unfold initialize_array.
  rewrite (to_size_t_small N) by lia.
  set (body := fun i : Z => _).
  destruct (for_each_up_inv
    (fun i m =>
       m = set_rand 12345 (Z.to_nat (8 * i)) (set_arr (arr m) st) /\
       length (arr m) = Z.to_nat N /\
       forall k, 0 <= k < i -> arr m !! Z.to_nat k = Some (seeded_record hst k))
    body 0 N st) as (st' & Hrun & Hframe & Hl & Hget).
  - lia.
  - split; [|split; [assumption|intros k Hk; lia]].
    destruct st; cbn in *. now subst.
  - intros i m Hi (Hframe & Hl & Hget).
    set (am := arr m) in *. set (c := Z.to_nat (8 * i)) in *.
    exists (set_rand 12345 (Z.to_nat (8 * (i + 1)))
              (set_arr (<[Z.to_nat i := seeded_record hst i]> am) st)).
    split.
    + subst body. cbv beta. unfold bind. rewrite Hframe.
      do 8 (rewrite rand_on; cbv beta iota).
      rewrite store_arr_ok by (change (0 <= i < Z.of_nat (length am)); lia).
      replace (Z.to_nat (8 * (i + 1))) with (S (S (S (S (S (S (S (S c)))))))) by lia.
      unfold seeded_record. fold c.
      replace (c + 0)%nat with c by lia.
      replace (c + 1)%nat with (S c) by lia.
      replace (c + 2)%nat with (S (S c)) by lia.
      replace (c + 3)%nat with (S (S (S c))) by lia.
      replace (c + 4)%nat with (S (S (S (S c)))) by lia.
      replace (c + 5)%nat with (S (S (S (S (S c))))) by lia.
      replace (c + 6)%nat with (S (S (S (S (S (S c)))))) by lia.
      replace (c + 7)%nat with (S (S (S (S (S (S (S c))))))) by lia.
      reflexivity.
    + split; [reflexivity|]. split.
      * change (length (<[Z.to_nat i := seeded_record hst i]> am) = Z.to_nat N).
        now rewrite length_insert.
      * intros k Hk.
        change ((<[Z.to_nat i := seeded_record hst i]> am) !! Z.to_nat k
                = Some (seeded_record hst k)).
        destruct (Z.eq_dec k i) as [->|Hne].
        -- apply list_lookup_insert_eq. lia.
        -- rewrite list_lookup_insert_ne by lia. apply Hget. lia.
  - rewrite Hrun. f_equal. f_equal. rewrite Hframe. f_equal. f_equal.
    now apply tabulate_eq.
Qed.

(** ** The five benchmarks and [main] *)

Lemma run_benchmarks_spec (N : Z) (hst : host) (st : machine) :
  8 <= N < 2 ^ 31 -> N mod 16 = 0 ->
  ready N st ->
  exists (sequential backward interleaved bouncing random : float) (st' : machine),
    run_benchmarks N hst st = Some (tt, st') /\
    arr st' = arr st /\
    indices st' = random_sequence hst (rand_seed st) (rand_calls st) (N / 8) /\
    rand_seed st' = rand_seed st /\
    stderr st' = stderr st /\
    clock_calls st' = (clock_calls st + 5 * Z.to_nat (2 * NUM_ITERATIONS))%nat /\
    stdout st' = stdout st ++
      [PatternLine "Sequential" sequential; PatternLine "Backward" backward;
       PatternLine "Interleaved" interleaved; PatternLine "Bouncing" bouncing;
       PatternLine "Random" random;
       CsvMarker; CsvHeader;
       CsvRow "Sequential" sequential; CsvRow "Backward" backward;
       CsvRow "Interleaved" interleaved; CsvRow "Bouncing" bouncing;
       CsvRow "Random" random].
Proof.
  intros HN H16 R0.
  destruct (benchmark_of_pattern N hst Sequential "Sequential" st HN H16 R0)
    as (_ & m1 & _ & _ & B1).
  set (s1 := finished "Sequential" m1 (generated hst (N / 8) Sequential st)) in *.
  assert (R1 : ready N s1) by now apply finished_ready, generated_ready.
  destruct (benchmark_of_pattern N hst Backward "Backward" s1 HN H16 R1)
    as (_ & m2 & _ & _ & B2).
  set (s2 := finished "Backward" m2 (generated hst (N / 8) Backward s1)) in *.
  assert (R2 : ready N s2) by now apply finished_ready, generated_ready.
  destruct (benchmark_of_pattern N hst Interleaved "Interleaved" s2 HN H16 R2)
    as (_ & m3 & _ & _ & B3).
  set (s3 := finished "Interleaved" m3 (generated hst (N / 8) Interleaved s2)) in *.
  assert (R3 : ready N s3) by now apply finished_ready, generated_ready.
  destruct (benchmark_of_pattern N hst Bouncing "Bouncing" s3 HN H16 R3)
    as (_ & m4 & _ & _ & B4).
  set (s4 := finished "Bouncing" m4 (generated hst (N / 8) Bouncing s3)) in *.
  assert (R4 : ready N s4) by now apply finished_ready, generated_ready.
  destruct (benchmark_of_pattern N hst Random "Random" s4 HN H16 R4)
    as (_ & m5 & _ & _ & B5).
  set (s5 := finished "Random" m5 (generated hst (N / 8) Random s4)) in *.
  cbn [generator] in B1, B2, B3, B4, B5.
  exists m1, m2, m3, m4, m5. eexists. split.
  { unfold run_benchmarks, bind.
    rewrite B1; cbv beta iota.
    rewrite B2; cbv beta iota. rewrite B3; cbv beta iota.
    rewrite B4; cbv beta iota. rewrite B5; cbv beta iota. reflexivity. }
  cbn. rewrite !Nat.add_0_r, <- !app_assoc. repeat split. lia.
Qed.

Lemma report_and_run_spec (N : Z) (hst : host) (st : machine) :
  8 <= N < 2 ^ 31 -> N mod 16 = 0 ->
  ready N st ->
  exists st' : machine,
    report_and_run N hst st = Some (0, st') /\
    arr st' = arr st /\
    indices st' = random_sequence hst 42 0 (N / 8) /\
    stderr st' = stderr st.
Proof.
  intros HN H16 R0. unfold report_and_run, bind, printf, srand.
  set (st1 := set_rand 42 0 _).
  destruct (run_benchmarks_spec N hst st1 HN H16 R0)
    as (m1 & m2 & m3 & m4 & m5 & st' & Hrun & Harr & Hidx & _ & Herr & _).
  rewrite Hrun. exists st'. repeat split; assumption.
Qed.

Lemma main_returns (N : Z) (hst : host) :
  8 <= N < 2 ^ 31 -> N mod 16 = 0 ->
  allocated N hst ->
  exists st : machine,
    main N hst = Some (0, st) /\
    arr st = seeded_buffer hst N /\
    indices st = random_sequence hst 42 0 (N / 8) /\
    stderr st = [].
Proof.
  intros HN H16 (ba & bi & Ea & Ei & La & Li). unfold main. rewrite Ea, Ei.
  unfold bind at 1. unfold srand at 1. unfold bind at 1.
  rewrite initialize_array_spec; [| lia | unfold boot; cbn; now rewrite Ea | reflexivity..].
  set (st0 := set_rand _ _ _).
  destruct (report_and_run_spec N hst st0 HN H16) as (st & Hrun & Harr & Hidx & Herr).
  { split; [|split].
    - cbn. apply seeded_buffer_length.
    - unfold boot. cbn. now rewrite Ei.
    - cbn. apply seeded_buffer_uint32. }
  exists st. split; [exact Hrun|]. split; [exact Harr|]. split; [exact Hidx|exact Herr].
Qed.

Lemma main_allocation_failure (N : Z) (hst : host) :
  malloc_arr hst = None \/ malloc_indices hst = None ->
  main N hst = Some (1, set_stderr [AllocationFailed] (boot hst)).
Proof.
  intros [E|E]; unfold main; rewrite E.
  - now destruct (malloc_indices hst).
  - now destruct (malloc_arr hst).
Qed.

(** * The program's own constants *)

Lemma ARRAY_SIZE_value : ARRAY_SIZE = 4194304.
Proof. reflexivity. Qed.

Lemma ARRAY_SIZE_range : 8 <= ARRAY_SIZE < 2 ^ 31.
Proof. rewrite ARRAY_SIZE_value. lia. Qed.

Lemma ARRAY_SIZE_mod_16 : ARRAY_SIZE mod 16 = 0.
Proof. reflexivity. Qed.

Lemma sequence_length_value : ARRAY_SIZE / 8 = 524288.
Proof. reflexivity. Qed.

Lemma fresh_state_indices :
  length (indices fresh_state) = Z.to_nat (ARRAY_SIZE / 8).
Proof. apply length_replicate. Qed.

Lemma fresh_state_ready : ready ARRAY_SIZE fresh_state.
Proof.
  split; [apply length_replicate|]. split; [apply length_replicate|].
  apply Forall_replicate. cbn. lia.
Qed.

Lemma posix_host_allocated : allocated ARRAY_SIZE posix_host.
Proof.
  eexists _, _. split; [reflexivity|]. split; [reflexivity|].
  split; apply length_replicate.
Qed.

Lemma win32_host_allocated : allocated ARRAY_SIZE win32_host.
Proof.
  eexists _, _. split; [reflexivity|]. split; [reflexivity|].
  split; apply length_replicate.
Qed.

(** * The claims *)

(** ** Sequential and Backward *)

(** C5. Sequential writes [offset[i] = i*8] and Backward writes
    [offset[i] = (L-1-i)*8], for every [i] in [[0, L)] with [L = 524288]; the
    first sequence is strictly increasing, the second strictly decreasing, and
    Backward's [offset[i]] is Sequential's [offset[L-1-i]]: each is the reverse
    of the other. *)
Theorem sequential_backward_reverse (st : machine) :
  length (indices st) = Z.to_nat (ARRAY_SIZE / 8) ->
  exists fwd bwd : list Z,
    generate_sequential_indices ARRAY_SIZE st = Some (tt, set_indices fwd st) /\
    generate_backward_indices ARRAY_SIZE st = Some (tt, set_indices bwd st) /\
    Z.of_nat (length fwd) = 524288 /\ Z.of_nat (length bwd) = 524288 /\
    (forall i, 0 <= i < 524288 ->
       fwd !! Z.to_nat i = Some (i * 8) /\
       bwd !! Z.to_nat i = Some ((524288 - 1 - i) * 8) /\
       bwd !! Z.to_nat i = fwd !! Z.to_nat (524288 - 1 - i)) /\
    (forall i j x y, (i < j)%nat -> fwd !! i = Some x -> fwd !! j = Some y -> x < y) /\
    (forall i j x y, (i < j)%nat -> bwd !! i = Some x -> bwd !! j = Some y -> y < x) /\
    bwd = reverse fwd.
Proof.
  intros Hlen. pose proof ARRAY_SIZE_range as HN.
  exists (offsets sequential_offset (ARRAY_SIZE / 8)),
         (offsets (backward_offset (ARRAY_SIZE / 8)) (ARRAY_SIZE / 8)).
  split; [apply generate_sequential_indices_spec; (lia || assumption)|].
  split; [apply generate_backward_indices_spec; (lia || assumption)|].
  rewrite sequence_length_value.
  assert (Hpoint : forall i, 0 <= i < 524288 ->
            offsets sequential_offset 524288 !! Z.to_nat i = Some (i * 8) /\
            offsets (backward_offset 524288) 524288 !! Z.to_nat i
            = Some ((524288 - 1 - i) * 8) /\
            offsets (backward_offset 524288) 524288 !! Z.to_nat i
            = offsets sequential_offset 524288 !! Z.to_nat (524288 - 1 - i)).
  { intros i Hi. rewrite !offsets_lookup by lia. now unfold sequential_offset, backward_offset. }
  split; [rewrite offsets_length; lia|]. split; [rewrite offsets_length; lia|].
  split; [exact Hpoint|]. split; [|split].
  - intros i j x y Hij Hx Hy.
    assert (Hj : (j < Z.to_nat 524288)%nat)
      by (apply lookup_lt_Some in Hy; now rewrite offsets_length in Hy).
    destruct (Hpoint (Z.of_nat i)) as (Ei & _); [lia|].
    destruct (Hpoint (Z.of_nat j)) as (Ej & _); [lia|].
    rewrite Nat2Z.id in Ei, Ej. rewrite Ei in Hx. rewrite Ej in Hy.
    injection Hx as <-. injection Hy as <-. lia.
  - intros i j x y Hij Hx Hy.
    assert (Hj : (j < Z.to_nat 524288)%nat)
      by (apply lookup_lt_Some in Hy; now rewrite offsets_length in Hy).
    destruct (Hpoint (Z.of_nat i)) as (_ & Ei & _); [lia|].
    destruct (Hpoint (Z.of_nat j)) as (_ & Ej & _); [lia|].
    rewrite Nat2Z.id in Ei, Ej. rewrite Ei in Hx. rewrite Ej in Hy.
    injection Hx as <-. injection Hy as <-. lia.
  - apply list_eq. intros n.
    destruct (decide (n < Z.to_nat 524288)%nat) as [Hn|Hn].
    + rewrite reverse_lookup by (rewrite offsets_length; exact Hn).
      rewrite offsets_length.
      destruct (Hpoint (Z.of_nat n)) as (_ & _ & E); [lia|].
      rewrite Nat2Z.id in E. rewrite E. f_equal. lia.
    + rewrite !lookup_ge_None_2; [reflexivity| |].
      * rewrite length_reverse, offsets_length. lia.
      * rewrite offsets_length. lia.
Qed.

Lemma sequential_backward_reverse_witness :
  exists fwd bwd : list Z,
    generate_sequential_indices ARRAY_SIZE fresh_state
    = Some (tt, set_indices fwd fresh_state) /\
    generate_backward_indices ARRAY_SIZE fresh_state
    = Some (tt, set_indices bwd fresh_state) /\
    Z.of_nat (length fwd) = 524288 /\ Z.of_nat (length bwd) = 524288 /\
    (forall i, 0 <= i < 524288 ->
       fwd !! Z.to_nat i = Some (i * 8) /\
       bwd !! Z.to_nat i = Some ((524288 - 1 - i) * 8) /\
       bwd !! Z.to_nat i = fwd !! Z.to_nat (524288 - 1 - i)) /\
    (forall i j x y, (i < j)%nat -> fwd !! i = Some x -> fwd !! j = Some y -> x < y) /\
    (forall i j x y, (i < j)%nat -> bwd !! i = Some x -> bwd !! j = Some y -> y < x) /\
    bwd = reverse fwd.
Proof. apply (sequential_backward_reverse fresh_state). apply length_replicate. Defined.

(** ** Interleaved *)

(** C6. For every [i] in [[0, L/2)] ([L = 524288], [L/2 = 262144]) Interleaved
    writes [offset[2i] = i*8] and [offset[2i+1] = (L/2 + i)*8]; so [offset[2i]]
    is below the half boundary [(L/2)*8] and [offset[2i+1]] is at or above it,
    the offsets at even positions ascend, the offsets at odd positions ascend,
    and the two subsequences lie in the two disjoint halves [[0, (L/2)*8)] and
    [[(L/2)*8, L*8)] of the index space. *)
Theorem interleaved_halves (st : machine) :
  length (indices st) = Z.to_nat (ARRAY_SIZE / 8) ->
  exists offs : list Z,
    generate_interleaved_indices ARRAY_SIZE st = Some (tt, set_indices offs st) /\
    Z.of_nat (length offs) = 524288 /\
    (forall i, 0 <= i < 262144 ->
       offs !! Z.to_nat (2 * i) = Some (i * 8) /\
       offs !! Z.to_nat (2 * i + 1) = Some ((262144 + i) * 8)) /\
    (forall i x y, 0 <= i < 262144 ->
       offs !! Z.to_nat (2 * i) = Some x -> offs !! Z.to_nat (2 * i + 1) = Some y ->
       0 <= x < 262144 * 8 /\ 262144 * 8 <= y < 524288 * 8) /\
    (forall i j x y, 0 <= i < j -> j < 262144 ->
       offs !! Z.to_nat (2 * i) = Some x -> offs !! Z.to_nat (2 * j) = Some y -> x < y) /\
    (forall i j x y, 0 <= i < j -> j < 262144 ->
       offs !! Z.to_nat (2 * i + 1) = Some x -> offs !! Z.to_nat (2 * j + 1) = Some y ->
       x < y).
Proof.
  intros Hlen. pose proof ARRAY_SIZE_range as HN.
  exists (offsets (interleaved_offset (ARRAY_SIZE / 8)) (ARRAY_SIZE / 8)).
  split; [apply generate_interleaved_indices_spec;
          first [lia | exact ARRAY_SIZE_mod_16 | assumption]|].
  rewrite sequence_length_value.
  assert (Hpoint : forall i, 0 <= i < 262144 ->
            offsets (interleaved_offset 524288) 524288 !! Z.to_nat (2 * i) = Some (i * 8) /\
            offsets (interleaved_offset 524288) 524288 !! Z.to_nat (2 * i + 1)
            = Some ((262144 + i) * 8)).
  { intros i Hi. rewrite !offsets_lookup by lia. unfold interleaved_offset.
    replace (2 * i mod 2 =? 0) with true by (symmetry; apply Z.eqb_eq; dlia).
    replace ((2 * i + 1) mod 2 =? 0) with false by (symmetry; apply Z.eqb_neq; dlia).
    split; do 2 f_equal; dlia. }
  split; [rewrite offsets_length; lia|]. split; [exact Hpoint|]. split; [|split].
  - intros i x y Hi Hx Hy. destruct (Hpoint i Hi) as (Ex & Ey).
    rewrite Ex in Hx. rewrite Ey in Hy. injection Hx as <-. injection Hy as <-. lia.
  - intros i j x y Hij Hj Hx Hy.
    destruct (Hpoint i) as (Ex & _); [lia|]. destruct (Hpoint j) as (Ey & _); [lia|].
    rewrite Ex in Hx. rewrite Ey in Hy. injection Hx as <-. injection Hy as <-. lia.
  - intros i j x y Hij Hj Hx Hy.
    destruct (Hpoint i) as (_ & Ex); [lia|]. destruct (Hpoint j) as (_ & Ey); [lia|].
    rewrite Ex in Hx. rewrite Ey in Hy. injection Hx as <-. injection Hy as <-. lia.
Qed.

Lemma interleaved_halves_witness :
  exists offs : list Z,
    generate_interleaved_indices ARRAY_SIZE fresh_state
    = Some (tt, set_indices offs fresh_state) /\
    Z.of_nat (length offs) = 524288 /\
    (forall i, 0 <= i < 262144 ->
       offs !! Z.to_nat (2 * i) = Some (i * 8) /\
       offs !! Z.to_nat (2 * i + 1) = Some ((262144 + i) * 8)) /\
    (forall i x y, 0 <= i < 262144 ->
       offs !! Z.to_nat (2 * i) = Some x -> offs !! Z.to_nat (2 * i + 1) = Some y ->
       0 <= x < 262144 * 8 /\ 262144 * 8 <= y < 524288 * 8) /\
    (forall i j x y, 0 <= i < j -> j < 262144 ->
       offs !! Z.to_nat (2 * i) = Some x -> offs !! Z.to_nat (2 * j) = Some y -> x < y) /\
    (forall i j x y, 0 <= i < j -> j < 262144 ->
       offs !! Z.to_nat (2 * i + 1) = Some x -> offs !! Z.to_nat (2 * j + 1) = Some y ->
       x < y).
Proof. apply (interleaved_halves fresh_state). apply length_replicate. Defined.

(** ** Bouncing *)

(** C7. For every [i] in [[0, L)] ([L = 524288]) Bouncing writes
    [offset[i] = (i/2)*8] when [i] is even and [offset[i] = (L-1-i/2)*8] when
    [i] is odd; [offset[0] = 0] and [offset[1] = (L-1)*8]; the offsets at even
    positions increase from the low end, the offsets at odd positions decrease
    from the high end, every even-position offset is below every odd-position
    one, and the two walks meet in the middle: the last even position holds
    [(L/2-1)*8] and the last odd position holds [(L/2)*8]. *)
Theorem bouncing_from_both_ends (st : machine) :
  length (indices st) = Z.to_nat (ARRAY_SIZE / 8) ->
  exists offs : list Z,
    generate_bouncing_indices ARRAY_SIZE st = Some (tt, set_indices offs st) /\
    Z.of_nat (length offs) = 524288 /\
    (forall i, 0 <= i < 524288 ->
       offs !! Z.to_nat i
       = Some (if i mod 2 =? 0 then (i / 2) * 8 else (524288 - 1 - i / 2) * 8)) /\
    offs !! 0%nat = Some 0 /\
    offs !! 1%nat = Some ((524288 - 1) * 8) /\
    (forall i j x y, 0 <= i < j -> 2 * j < 524288 ->
       offs !! Z.to_nat (2 * i) = Some x -> offs !! Z.to_nat (2 * j) = Some y -> x < y) /\
    (forall i j x y, 0 <= i < j -> 2 * j + 1 < 524288 ->
       offs !! Z.to_nat (2 * i + 1) = Some x -> offs !! Z.to_nat (2 * j + 1) = Some y ->
       y < x) /\
    (forall i j x y, 0 <= i -> 2 * i < 524288 -> 0 <= j -> 2 * j + 1 < 524288 ->
       offs !! Z.to_nat (2 * i) = Some x -> offs !! Z.to_nat (2 * j + 1) = Some y ->
       x < y) /\
    offs !! Z.to_nat (524288 - 2) = Some ((262144 - 1) * 8) /\
    offs !! Z.to_nat (524288 - 1) = Some (262144 * 8).
Proof.
  intros Hlen. pose proof ARRAY_SIZE_range as HN.
  exists (offsets (bouncing_offset (ARRAY_SIZE / 8)) (ARRAY_SIZE / 8)).
  split; [apply generate_bouncing_indices_spec; (lia || assumption)|].
  rewrite sequence_length_value.
  set (offs := offsets (bouncing_offset 524288) 524288).
  assert (Hpoint : forall i, 0 <= i < 524288 ->
            offs !! Z.to_nat i
            = Some (if i mod 2 =? 0 then (i / 2) * 8 else (524288 - 1 - i / 2) * 8)).
  { intros i Hi. unfold offs. now rewrite offsets_lookup by lia. }
  assert (Heven : forall i, 0 <= i -> 2 * i < 524288 ->
            offs !! Z.to_nat (2 * i) = Some (i * 8)).
  { intros i H0 Hi. rewrite Hpoint by lia.
    replace (2 * i mod 2 =? 0) with true by (symmetry; apply Z.eqb_eq; dlia).
    do 2 f_equal. dlia. }
  assert (Hodd : forall i, 0 <= i -> 2 * i + 1 < 524288 ->
            offs !! Z.to_nat (2 * i + 1) = Some ((524288 - 1 - i) * 8)).
  { intros i H0 Hi. rewrite Hpoint by lia.
    replace ((2 * i + 1) mod 2 =? 0) with false by (symmetry; apply Z.eqb_neq; dlia).
    do 3 f_equal. dlia. }
  split; [unfold offs; rewrite offsets_length; lia|]. split; [exact Hpoint|].
  split; [exact (Heven 0 ltac:(lia) ltac:(lia))|].
  split; [exact (Hodd 0 ltac:(lia) ltac:(lia))|].
  split; [|split; [|split; [|split]]].
  - intros i j x y Hij Hj Hx Hy.
    rewrite Heven in Hx by lia. rewrite Heven in Hy by lia.
    injection Hx as <-. injection Hy as <-. lia.
  - intros i j x y Hij Hj Hx Hy.
    rewrite Hodd in Hx by lia. rewrite Hodd in Hy by lia.
    injection Hx as <-. injection Hy as <-. lia.
  - intros i j x y Hi0 Hi Hj0 Hj Hx Hy.
    rewrite Heven in Hx by lia. rewrite Hodd in Hy by lia.
    injection Hx as <-. injection Hy as <-. lia.
  - exact (Heven (262144 - 1) ltac:(lia) ltac:(lia)).
  - exact (Hodd (262144 - 1) ltac:(lia) ltac:(lia)).
Qed.

Lemma bouncing_from_both_ends_witness :
  exists offs : list Z,
    generate_bouncing_indices ARRAY_SIZE fresh_state
    = Some (tt, set_indices offs fresh_state) /\
    Z.of_nat (length offs) = 524288 /\
    (forall i, 0 <= i < 524288 ->
       offs !! Z.to_nat i
       = Some (if i mod 2 =? 0 then (i / 2) * 8 else (524288 - 1 - i / 2) * 8)) /\
    offs !! 0%nat = Some 0 /\
    offs !! 1%nat = Some ((524288 - 1) * 8) /\
    (forall i j x y, 0 <= i < j -> 2 * j < 524288 ->
       offs !! Z.to_nat (2 * i) = Some x -> offs !! Z.to_nat (2 * j) = Some y -> x < y) /\
    (forall i j x y, 0 <= i < j -> 2 * j + 1 < 524288 ->
       offs !! Z.to_nat (2 * i + 1) = Some x -> offs !! Z.to_nat (2 * j + 1) = Some y ->
       y < x) /\
    (forall i j x y, 0 <= i -> 2 * i < 524288 -> 0 <= j -> 2 * j + 1 < 524288 ->
       offs !! Z.to_nat (2 * i) = Some x -> offs !! Z.to_nat (2 * j + 1) = Some y ->
       x < y) /\
    offs !! Z.to_nat (524288 - 2) = Some ((262144 - 1) * 8) /\
    offs !! Z.to_nat (524288 - 1) = Some (262144 * 8).
Proof. apply (bouncing_from_both_ends fresh_state). apply length_replicate. Defined.

(** ** Every generator *)

Lemma stride_set_in_range (N : Z) :
  0 <= N -> N mod 8 = 0 ->
  Forall (fun v => v mod 8 = 0 /\ 0 <= v < N) (stride_set N).
Proof.
  intros HN H8. rewrite stride_set_sequential. apply Forall_forall.
  intros v Hv. apply elem_of_offsets in Hv as (i & Hi & ->).
  unfold sequential_offset. dlia.
Qed.

Lemma stride_set_NoDup (N : Z) : NoDup (stride_set N).
Proof.
  unfold stride_set. apply NoDup_fmap_2_strong; [|apply NoDup_seqZ].
  intros x y _ _ Heq. lia.
Qed.

(** C1. Each of the five generators (Sequential, Backward, Interleaved,
    Bouncing, Random; Random with any [rand] of the host) returns, and leaves
    in [indices] a sequence of length [L = N/8 = 524288] that is a permutation
    of [{0, 8, 16, ..., N-8}]: its values are pairwise distinct, each is a
    multiple of 8, and each is an index of the buffer, below [N = 4194304]. *)
Theorem generators_permute_stride_set (hst : host) (p : pattern) (st : machine) :
  length (indices st) = Z.to_nat (ARRAY_SIZE / 8) ->
  exists st' : machine,
    generator ARRAY_SIZE hst p st = Some (tt, st') /\
    ARRAY_SIZE = 4194304 /\
    ARRAY_SIZE / 8 = 524288 /\
    Z.of_nat (length (indices st')) = 524288 /\
    indices st' ≡ₚ stride_set ARRAY_SIZE /\
    NoDup (indices st') /\
    Forall (fun v => v mod 8 = 0 /\ 0 <= v < 4194304) (indices st').
Proof.
  intros Hlen. pose proof ARRAY_SIZE_range as HN.
  exists (generated hst (ARRAY_SIZE / 8) p st).
  split; [apply generator_spec; first [lia | exact ARRAY_SIZE_mod_16 | assumption]|].
  split; [reflexivity|]. split; [reflexivity|].
  change (indices (generated hst (ARRAY_SIZE / 8) p st))
    with (pattern_sequence hst (ARRAY_SIZE / 8) p st).
  assert (Hperm : pattern_sequence hst (ARRAY_SIZE / 8) p st ≡ₚ stride_set ARRAY_SIZE).
  { rewrite stride_set_sequential. apply pattern_sequence_permutation.
    rewrite sequence_length_value. reflexivity. }
  split; [rewrite pattern_sequence_length, sequence_length_value; lia|].
  split; [exact Hperm|]. split.
  - rewrite Hperm. apply stride_set_NoDup.
  - rewrite Hperm. rewrite <- ARRAY_SIZE_value.
    apply stride_set_in_range; [lia|]. pose proof ARRAY_SIZE_mod_16. dlia.
Qed.

Lemma generators_permute_stride_set_witness :
  exists st' : machine,
    generator ARRAY_SIZE posix_host Random fresh_state = Some (tt, st') /\
    ARRAY_SIZE = 4194304 /\
    ARRAY_SIZE / 8 = 524288 /\
    Z.of_nat (length (indices st')) = 524288 /\
    indices st' ≡ₚ stride_set ARRAY_SIZE /\
    NoDup (indices st') /\
    Forall (fun v => v mod 8 = 0 /\ 0 <= v < 4194304) (indices st').
Proof.
  apply (generators_permute_stride_set posix_host Random fresh_state).
  apply length_replicate.
Defined.

(** ** The median *)

Lemma count_below_permutation {T : Type} (gt : T -> T -> bool) (m : T) (l k : list T) :
  l ≡ₚ k -> count_below gt m l = count_below gt m k.
Proof. intros Hp. unfold count_below. now rewrite Hp. Qed.

Lemma count_not_above_permutation {T : Type} (gt : T -> T -> bool) (m : T)
    (l k : list T) :
  l ≡ₚ k -> count_not_above gt m l = count_not_above gt m k.
Proof. intros Hp. unfold count_not_above. now rewrite Hp. Qed.

(** C2. The statistic of a pattern is [times[NUM_ITERATIONS / 2]] after the
    bubble sort.  For ten samples that the comparison orders (asymmetric and
    negatively transitive on the samples, nothing being asked of it on other
    values: [>] on doubles is so on any samples without a NaN), the sort
    returns a sorted permutation of the samples and the statistic is its cell 5,
    the upper of the two middle samples and not their average: at most 5
    samples are strictly below it and at least 6 are not above it, so it is the
    6th smallest.  On the doubles 5, 1, 4, 2, 8, 9, 3, 7, 6, 0 it is 5. *)
Theorem median_is_sixth_smallest {T : Type} (gt : T -> T -> bool) (times : list T) :
  (forall x y, x ∈ times -> y ∈ times -> gt x y = true -> gt y x = false) ->
  (forall x y z, x ∈ times -> y ∈ times -> z ∈ times ->
     gt x y = false -> gt y z = false -> gt x z = false) ->
  length times = 10%nat ->
  exists (sorted : list T) (median : T),
    bubble_sort gt NUM_ITERATIONS times = Some sorted /\
    sorted ≡ₚ times /\
    StronglySorted (not_gt gt) sorted /\
    NUM_ITERATIONS / 2 = 5 /\
    sorted !! 5%nat = Some median /\
    median_time gt times = Some median /\
    (count_below gt median times <= 5)%nat /\
    (6 <= count_not_above gt median times)%nat /\
    median_time double_gt example_samples = Some 5%float.
Proof.
  intros Hasym Htrans Hlen.
  destruct (bubble_sort_spec gt times Hasym Htrans NUM_ITERATIONS times)
    as (sorted & Hsort & Hl & Hperm & Hasc);
    [intros v Hv; exact Hv|unfold NUM_ITERATIONS; lia|exact Hlen|].
  destruct (lookup_lt_is_Some_2 sorted 5) as [median Hmed]; [lia|].
  assert (Smed : median ∈ times).
  { rewrite <- Hperm. apply list_elem_of_lookup. eauto. }
  exists sorted, median.
  split; [exact Hsort|]. split; [exact Hperm|].
  split; [now apply ascending_StronglySorted|].
  split; [reflexivity|]. split; [exact Hmed|].
  split; [unfold median_time; rewrite Hsort; exact Hmed|].
  split; [|split].
  - rewrite <- (count_below_permutation gt median sorted times Hperm).
    now apply (ascending_count_below gt times Hasym sorted 5 median).
  - rewrite <- (count_not_above_permutation gt median sorted times Hperm).
    now apply (ascending_count_not_above gt times Hasym sorted 5 median).
  - vm_compute. reflexivity.
Qed.

Lemma median_is_sixth_smallest_witness :
  exists (sorted : list float) (median : float),
    bubble_sort double_gt NUM_ITERATIONS example_samples = Some sorted /\
    sorted ≡ₚ example_samples /\
    StronglySorted (not_gt double_gt) sorted /\
    NUM_ITERATIONS / 2 = 5 /\
    sorted !! 5%nat = Some median /\
    median_time double_gt example_samples = Some median /\
    (count_below double_gt median example_samples <= 5)%nat /\
    (6 <= count_not_above double_gt median example_samples)%nat /\
    median_time double_gt example_samples = Some 5%float.
Proof.
  apply (median_is_sixth_smallest double_gt example_samples).
  - apply asymmetric_on_spec. vm_compute. reflexivity.
  - apply negatively_transitive_on_spec. vm_compute. reflexivity.
  - reflexivity.
Defined.

(** ** The accumulator *)

(** C8. After any of the five generators, one full pass of
    [sum += arr[indices[j]].a] over the [L = 524288] offsets leaves in the
    64-bit accumulator the mathematical sum of the fields read: the sum is at
    most [524288 * (2^32 - 1)], which is below [2^64], so no addition wraps.
    After Sequential it is the sum of field [a] of every 8th record of the
    buffer, computed from the buffer alone. *)
Theorem accumulator_exact (hst : host) (p : pattern) (st : machine) :
  ready ARRAY_SIZE st ->
  exists st' : machine,
    generator ARRAY_SIZE hst p st = Some (tt, st') /\
    read_sum_pass (to_size_t (ARRAY_SIZE / 8)) st'
    = Some (exact_sum (arr st') (indices st'), st') /\
    0 <= exact_sum (arr st') (indices st') <= 524288 * (2 ^ 32 - 1) /\
    524288 * (2 ^ 32 - 1) < 2 ^ 64 /\
    (p = Sequential -> exact_sum (arr st') (indices st') = reference_sum (arr st)).
Proof.
  intros Hready. pose proof ARRAY_SIZE_range as HN. pose proof ARRAY_SIZE_mod_16 as H16.
  pose proof (generated_ready ARRAY_SIZE hst p st Hready) as (Ha & Hi & Hu).
  destruct Hready as (Ha0 & Hi0 & Hu0).
  set (st' := generated hst (ARRAY_SIZE / 8) p st) in *.
  assert (Hperm : indices st' ≡ₚ offsets sequential_offset (ARRAY_SIZE / 8)).
  { apply pattern_sequence_permutation. dlia. }
  exists st'. split; [apply generator_spec; first [lia | assumption]|].
  split; [|split; [|split]].
  - rewrite to_size_t_small by dlia.
    apply read_sum_pass_spec; try assumption; [dlia|].
    apply (sequence_in_bounds ARRAY_SIZE); [lia|dlia|assumption|assumption].
  - pose proof (exact_sum_bound (arr st') (indices st') Hu) as Hb.
    rewrite Hi, sequence_length_value in Hb. lia.
  - lia.
  - intros ->. symmetry. apply (reference_sum_sequential ARRAY_SIZE); [lia|dlia|assumption].
Qed.

Lemma accumulator_exact_witness :
  exists st' : machine,
    generator ARRAY_SIZE posix_host Sequential fresh_state = Some (tt, st') /\
    read_sum_pass (to_size_t (ARRAY_SIZE / 8)) st'
    = Some (exact_sum (arr st') (indices st'), st') /\
    0 <= exact_sum (arr st') (indices st') <= 524288 * (2 ^ 32 - 1) /\
    524288 * (2 ^ 32 - 1) < 2 ^ 64 /\
    (Sequential = Sequential ->
     exact_sum (arr st') (indices st') = reference_sum (arr fresh_state)).
Proof.
  apply (accumulator_exact posix_host Sequential fresh_state).
  split; [apply length_replicate|]. split; [apply length_replicate|].
  apply Forall_replicate. cbn. lia.
Defined.

(** ** Random is reproducible *)

Lemma fisher_yates_ext (d1 d2 : nat -> Z) (n k : nat) (l : list Z) :
  (forall j, d1 j = d2 j) -> fisher_yates d1 k n l = fisher_yates d2 k n l.
Proof.
  intros Hext. revert k l. induction n as [|n IH]; intros k l; [reflexivity|].
  cbn [fisher_yates]. cbv zeta. now rewrite Hext, IH.
Qed.

Lemma random_sequence_ext (h1 h2 : host) (seed : Z) (calls : nat) (L : Z) :
  (forall n, rand_seq h1 seed n = rand_seq h2 seed n) ->
  random_sequence h1 seed calls L = random_sequence h2 seed calls L.
Proof.
  intros Hext. unfold random_sequence. apply fisher_yates_ext.
  intros j. unfold draws. now rewrite Hext.
Qed.

(** C3. Two runs of the program on hosts whose [rand()] gives the same values
    after [srand(42)] (whatever the clocks answer, whatever [malloc] left in
    the blocks, and whatever [rand()] gives for the seed of the buffer) both
    return, and end with the same index sequence, cell for cell: the
    Fisher-Yates shuffle of the Sequential sequence of length [L = 524288],
    driven by the values of [rand()] from the first one after [srand(42)].
    So do two generations from two states with the same generator state: the
    earlier contents of [indices] do not matter. *)
Theorem random_is_reproducible (h1 h2 : host) :
  (forall n, rand_seq h1 42 n = rand_seq h2 42 n) ->
  allocated ARRAY_SIZE h1 ->
  allocated ARRAY_SIZE h2 ->
  exists st1 st2 : machine,
    main ARRAY_SIZE h1 = Some (0, st1) /\
    main ARRAY_SIZE h2 = Some (0, st2) /\
    indices st1 = indices st2 /\
    indices st1
    = fisher_yates (draws h1 42) 0 (Z.to_nat (524288 - 1))
        (offsets sequential_offset 524288) /\
    (forall sa sb : machine,
       length (indices sa) = Z.to_nat (ARRAY_SIZE / 8) ->
       length (indices sb) = Z.to_nat (ARRAY_SIZE / 8) ->
       rand_seed sa = rand_seed sb -> rand_calls sa = rand_calls sb ->
       exists sa' sb' : machine,
         generate_random_indices ARRAY_SIZE h1 sa = Some (tt, sa') /\
         generate_random_indices ARRAY_SIZE h1 sb = Some (tt, sb') /\
         indices sa' = indices sb').
Proof.
  intros Hrand A1 A2. pose proof ARRAY_SIZE_range as HN.
  destruct (main_returns ARRAY_SIZE h1 HN ARRAY_SIZE_mod_16 A1) as (st1 & M1 & _ & I1 & _).
  destruct (main_returns ARRAY_SIZE h2 HN ARRAY_SIZE_mod_16 A2) as (st2 & M2 & _ & I2 & _).
  exists st1, st2. split; [exact M1|]. split; [exact M2|]. split; [|split].
  - rewrite I1, I2. apply random_sequence_ext. exact Hrand.
  - rewrite I1. unfold random_sequence. rewrite sequence_length_value. reflexivity.
  - intros sa sb La Lb Hseed Hcalls.
    exists (shuffled h1 (ARRAY_SIZE / 8) sa), (shuffled h1 (ARRAY_SIZE / 8) sb).
    split; [apply generate_random_indices_spec; assumption|].
    split; [apply generate_random_indices_spec; assumption|].
    change (random_sequence h1 (rand_seed sa) (rand_calls sa) (ARRAY_SIZE / 8)
            = random_sequence h1 (rand_seed sb) (rand_calls sb) (ARRAY_SIZE / 8)).
    rewrite Hseed, Hcalls. reflexivity.
Qed.

Lemma random_is_reproducible_witness :
  exists st1 st2 : machine,
    main ARRAY_SIZE posix_host = Some (0, st1) /\
    main ARRAY_SIZE win32_host = Some (0, st2) /\
    indices st1 = indices st2 /\
    indices st1
    = fisher_yates (draws posix_host 42) 0 (Z.to_nat (524288 - 1))
        (offsets sequential_offset 524288) /\
    (forall sa sb : machine,
       length (indices sa) = Z.to_nat (ARRAY_SIZE / 8) ->
       length (indices sb) = Z.to_nat (ARRAY_SIZE / 8) ->
       rand_seed sa = rand_seed sb -> rand_calls sa = rand_calls sb ->
       exists sa' sb' : machine,
         generate_random_indices ARRAY_SIZE posix_host sa = Some (tt, sa') /\
         generate_random_indices ARRAY_SIZE posix_host sb = Some (tt, sb') /\
         indices sa' = indices sb').
Proof.
  apply (random_is_reproducible posix_host win32_host).
  - intros n. change (sample_rand 42 n = sample_rand 42 n). reflexivity.
  - eexists _, _. split; [reflexivity|]. split; [reflexivity|].
    split; apply length_replicate.
  - eexists _, _. split; [reflexivity|]. split; [reflexivity|].
    split; apply length_replicate.
Defined.

(** ** The exit status *)

(** C9. When [malloc] returns a null pointer for [arr] or for [indices],
    [main] writes the failure to the standard error, returns 1, and has run
    no benchmark: nothing is on the standard output, the clock was never read
    and [rand()] was never called.  When both blocks are there, [main]
    returns, with status 0 and nothing on the standard error: no read or
    write of the generators, of the passes, of the sort or of the reports
    leaves its block. *)
Theorem main_exit_status (hst : host) :
  malloc_sized ARRAY_SIZE hst ->
  match malloc_arr hst, malloc_indices hst with
  | Some _, Some _ =>
      exists st : machine,
        main ARRAY_SIZE hst = Some (0, st) /\ stderr st = []
  | _, _ =>
      exists st : machine,
        main ARRAY_SIZE hst = Some (1, st) /\
        stderr st = [AllocationFailed] /\
        stdout st = [] /\ clock_calls st = 0%nat /\ rand_calls st = 0%nat
  end.
Proof.
  intros (Sa & Si).
  destruct (malloc_arr hst) as [ba|] eqn:Ea; [destruct (malloc_indices hst) as [bi|] eqn:Ei|].
  - destruct (main_returns ARRAY_SIZE hst ARRAY_SIZE_range ARRAY_SIZE_mod_16)
      as (st & Hmain & _ & _ & Herr).
    + exists ba, bi. split; [exact Ea|]. split; [exact Ei|]. split; [now apply Sa|now apply Si].
    + exists st. split; assumption.
  - eexists. split; [apply main_allocation_failure; now right|]. repeat split.
  - eexists. split; [apply main_allocation_failure; now left|]. repeat split.
Qed.

Lemma malloc_sized_of_blocks (N : Z) (target : platform) (rand : Z -> nat -> Z)
    (tod : nat -> timeval) (counter frequency : nat -> Z)
    (block_arr : list DataStruct) (block_indices : list Z) :
  length block_arr = Z.to_nat N ->
  length block_indices = Z.to_nat (N / 8) ->
  malloc_sized N (mkHost target rand tod counter frequency
                         (Some block_arr) (Some block_indices)).
Proof.
  intros La Li. split; intros block E; cbn in E; injection E as <-; assumption.
Qed.

Lemma main_exit_status_witness :
  match malloc_arr posix_host, malloc_indices posix_host with
  | Some _, Some _ =>
      exists st : machine,
        main ARRAY_SIZE posix_host = Some (0, st) /\ stderr st = []
  | _, _ =>
      exists st : machine,
        main ARRAY_SIZE posix_host = Some (1, st) /\
        stderr st = [AllocationFailed] /\
        stdout st = [] /\ clock_calls st = 0%nat /\ rand_calls st = 0%nat
  end.
Proof.
  apply (main_exit_status posix_host).
  apply malloc_sized_of_blocks; apply length_replicate.
Defined.

(** ** The buffer is read only *)

(** C10. From a state in which the buffer is filled, nothing the program
    does afterwards changes [arr]: not one of the five generators, not a
    read-sum pass (warmup or timed), not a read of the clock, not a line
    printed, hence not a whole [benchmark_pattern], and not the rest of [main]
    after the initialisation loop; at the end of [main] the buffer is what the
    seeded loop wrote. *)
Theorem buffer_never_mutated (hst : host) (st : machine) :
  ready ARRAY_SIZE st ->
  (forall p : pattern,
     exists st' : machine,
       generator ARRAY_SIZE hst p st = Some (tt, st') /\ arr st' = arr st /\
       exists sum : Z, read_sum_pass (to_size_t (ARRAY_SIZE / 8)) st' = Some (sum, st')) /\
  (exists (t : float) (st' : machine),
     get_time hst st = Some (t, st') /\ arr st' = arr st) /\
  (forall line : output,
     exists st' : machine, printf line st = Some (tt, st') /\ arr st' = arr st) /\
  (forall (p : pattern) (name : string),
     exists (median : float) (st' : machine),
       benchmark_pattern ARRAY_SIZE hst (generator ARRAY_SIZE hst p) name st
       = Some (median, st') /\ arr st' = arr st) /\
  (exists st' : machine,
     report_and_run ARRAY_SIZE hst st = Some (0, st') /\ arr st' = arr st) /\
  (allocated ARRAY_SIZE hst ->
   exists final : machine,
     main ARRAY_SIZE hst = Some (0, final) /\
     arr final = seeded_buffer hst ARRAY_SIZE).
Proof.
  intros Hready. pose proof ARRAY_SIZE_range as HN. pose proof ARRAY_SIZE_mod_16 as H16.
  split; [|split; [|split; [|split; [|split]]]].
  - intros p.
    pose proof (generated_ready ARRAY_SIZE hst p st Hready) as (Ha & Hi & Hu).
    destruct Hready as (Ha0 & Hi0 & Hu0).
    exists (generated hst (ARRAY_SIZE / 8) p st).
    split; [now apply generator_spec|]. split; [reflexivity|].
    eexists. rewrite to_size_t_small by dlia.
    apply read_sum_pass_spec; try assumption; [dlia|].
    apply (sequence_in_bounds ARRAY_SIZE); [lia|dlia|assumption|].
    apply pattern_sequence_permutation. dlia.
  - destruct (get_time_ok hst st) as (t & Ht). exists t. eexists. split; [exact Ht|reflexivity].
  - intros line. eexists. split; reflexivity.
  - intros p name.
    destruct (benchmark_of_pattern ARRAY_SIZE hst p name st HN H16 Hready)
      as (_ & median & _ & _ & Hb).
    exists median. eexists. split; [exact Hb|reflexivity].
  - destruct (report_and_run_spec ARRAY_SIZE hst st HN H16 Hready)
      as (st' & Hrun & Harr & _).
    exists st'. split; assumption.
  - intros Halloc.
    destruct (main_returns ARRAY_SIZE hst HN H16 Halloc) as (fin & Hmain & Harr & _).
    exists fin. split; assumption.
Qed.

Lemma buffer_never_mutated_witness :
  (forall p : pattern,
     exists st' : machine,
       generator ARRAY_SIZE posix_host p fresh_state = Some (tt, st') /\
       arr st' = arr fresh_state /\
       exists sum : Z, read_sum_pass (to_size_t (ARRAY_SIZE / 8)) st' = Some (sum, st')) /\
  (exists (t : float) (st' : machine),
     get_time posix_host fresh_state = Some (t, st') /\ arr st' = arr fresh_state) /\
  (forall line : output,
     exists st' : machine,
       printf line fresh_state = Some (tt, st') /\ arr st' = arr fresh_state) /\
  (forall (p : pattern) (name : string),
     exists (median : float) (st' : machine),
       benchmark_pattern ARRAY_SIZE posix_host (generator ARRAY_SIZE posix_host p)
         name fresh_state
       = Some (median, st') /\ arr st' = arr fresh_state) /\
  (exists st' : machine,
     report_and_run ARRAY_SIZE posix_host fresh_state = Some (0, st') /\
     arr st' = arr fresh_state) /\
  (allocated ARRAY_SIZE posix_host ->
   exists final : machine,
     main ARRAY_SIZE posix_host = Some (0, final) /\
     arr final = seeded_buffer posix_host ARRAY_SIZE).
Proof.
  apply (buffer_never_mutated posix_host fresh_state).
  split; [apply length_replicate|]. split; [apply length_replicate|].
  apply Forall_replicate. cbn. lia.
Defined.

(** ** The timer *)

(** The [_WIN32] branch reads the performance counter only: two hosts with
    the same counter and frequency get the same timestamps, whatever their
    calendar clocks say. *)
Lemma get_time_win32_ignores_calendar_clock (h1 h2 : host) (st : machine) :
  target h1 = Win32 -> target h2 = Win32 ->
  QueryPerformanceCounter h1 = QueryPerformanceCounter h2 ->
  QueryPerformanceFrequency h1 = QueryPerformanceFrequency h2 ->
  get_time h1 st = get_time h2 st.
Proof.
  intros T1 T2 Hc Hf. unfold get_time. now rewrite T1, T2, Hc, Hf.
Qed.

(** The other branch returns what [gettimeofday] reads. *)
Lemma get_time_posix_reads_calendar_clock (hst : host) (st : machine) :
  target hst = Posix ->
  get_time hst st
  = Some (get_time_posix (gettimeofday hst (clock_calls st)),
          set_clock_calls (S (clock_calls st)) st).
Proof. intros Ht. unfold get_time. now rewrite Ht. Qed.

(** C4 (the POSIX branch of the program does not have the property).
    [get_time] there is [gettimeofday], the calendar clock: on a host whose
    calendar clock is set back by half a second between two reads, the first
    call returns 100 and the second, later call returns 99.5, a smaller
    timestamp. *)
Theorem get_time_posix_goes_back :
  exists (t0 t1 : float) (st1 st2 : machine),
    target stepped_back_host = Posix /\
    get_time stepped_back_host (boot stepped_back_host) = Some (t0, st1) /\
    get_time stepped_back_host st1 = Some (t1, st2) /\
    t0 = 100%float /\ t1 = 99.5%float /\
    PrimFloat.ltb t1 t0 = true.
Proof.
  eexists _, _, _, _. split; [reflexivity|].
  split; [reflexivity|]. split; [reflexivity|].
  split; [vm_compute; reflexivity|]. split; vm_compute; reflexivity.
Qed.

(** * The definitions, run on a small buffer *)

Example small_sequential :
  indices_after (generate_sequential_indices 64) small_state
  = Some [0; 8; 16; 24; 32; 40; 48; 56].
Proof. vm_compute. reflexivity. Qed.

Example small_backward :
  indices_after (generate_backward_indices 64) small_state
  = Some [56; 48; 40; 32; 24; 16; 8; 0].
Proof. vm_compute. reflexivity. Qed.

Example small_interleaved :
  indices_after (generate_interleaved_indices 64) small_state
  = Some [0; 32; 8; 40; 16; 48; 24; 56].
Proof. vm_compute. reflexivity. Qed.

Example small_bouncing :
  indices_after (generate_bouncing_indices 64) small_state
  = Some [0; 56; 8; 48; 16; 40; 24; 32].
Proof. vm_compute. reflexivity. Qed.

Example small_random :
  indices_after (generate_random_indices 64 small_host) small_state
  = Some (random_sequence small_host 42 0 8).
Proof. vm_compute. reflexivity. Qed.

(** The sum of field [a] over the Sequential sequence, on known values:
    [1000 + 1080 + 1160 + ... + 1560]. *)
Example small_accumulator :
  (generate_sequential_indices 64 >>> read_sum_pass 8) small_state
  = Some (10240, set_indices [0; 8; 16; 24; 32; 40; 48; 56] small_state) /\
  reference_sum small_buffer = 10240.
Proof. split; vm_compute; reflexivity. Qed.

(** A write outside the block is undefined behaviour: the generators for a
    sequence of 16 offsets, on a block of 8. *)
Example small_block_overrun :
  generate_sequential_indices 128 small_state = None.
Proof. vm_compute. reflexivity. Qed.

Example small_main :
  exists st : machine,
    main 64 small_host = Some (0, st) /\
    stderr st = [] /\ length (stdout st) = 15%nat /\ clock_calls st = 100%nat.
Proof. eexists. split; [vm_compute; reflexivity|]. repeat split. Qed.


(** * Further properties *)

(** ** The generators of the C++ class *)

Lemma fill_loop_sized (fn : Z -> Z) (body : Z -> M unit) (L : Z) (st : machine) :
  0 <= L ->
  length (indices st) = Z.to_nat L ->
  (forall i m, 0 <= i < L -> length (indices m) = Z.to_nat L ->
               body i m = store_index i (fn i) m) ->
  for_each_up 0 L body st = Some (tt, set_indices (offsets fn L) st).
Proof.
  intros HL Hlen Hbody.
  destruct (for_each_up_inv (fun i m => written fn i st m) body 0 L st)
    as (st' & Hrun & Hfin); [assumption|apply written_start| |].
  - intros i m Hi Hw. rewrite Hbody; [|assumption|destruct Hw as (_ & Hl & _); congruence].
    destruct (written_store fn i i st m Hw) as (m' & Hst & Hw' & Hi'); [lia|lia|].
    exists m'. split; [assumption|]. now apply written_extend.
  - rewrite Hrun. f_equal. f_equal. now apply written_all.
Qed.

Lemma indices_size_small (st : machine) :
  Z.of_nat (length (indices st)) < 2 ^ 61 ->
  indices_size st = Some (Z.of_nat (length (indices st)), st).
Proof. intros Hl. unfold indices_size. now rewrite to_size_t_small by lia. Qed.

Lemma for_each_index_fill (fn : Z -> Z) (body : Z -> M unit) (st : machine) :
  Z.of_nat (length (indices st)) < 2 ^ 61 ->
  (forall i m, 0 <= i < Z.of_nat (length (indices st)) ->
               length (indices m) = length (indices st) ->
               body i m = store_index i (fn i) m) ->
  for_each_index body st
  = Some (tt, set_indices (offsets fn (Z.of_nat (length (indices st)))) st).
Proof.
  intros Hl Hbody. unfold for_each_index, bind. rewrite indices_size_small by assumption.
  apply fill_loop_sized; [lia|now rewrite Nat2Z.id|].
  intros i m Hi Hm. apply Hbody; [assumption|]. now rewrite Hm, Nat2Z.id.
Qed.

Lemma generateSequentialIndices_spec (st : machine) :
  Z.of_nat (length (indices st)) < 2 ^ 61 ->
  generateSequentialIndices st
  = Some (tt, set_indices (offsets sequential_offset (Z.of_nat (length (indices st)))) st).
Proof.
  intros Hl. apply for_each_index_fill; [assumption|].
  intros i m Hi Hm. unfold sequential_offset. size_small. reflexivity.
Qed.

Lemma generateBackwardIndices_spec (st : machine) :
  Z.of_nat (length (indices st)) < 2 ^ 61 ->
  generateBackwardIndices st
  = Some (tt, set_indices (offsets (backward_offset (Z.of_nat (length (indices st))))
                                   (Z.of_nat (length (indices st)))) st).
Proof.
  intros Hl. apply for_each_index_fill; [assumption|].
  intros i m Hi Hm. unfold bind.
  rewrite indices_size_small by (rewrite Hm; assumption). rewrite Hm.
  unfold backward_offset. size_small. reflexivity.
Qed.

Lemma generateBouncingIndices_spec (st : machine) :
  Z.of_nat (length (indices st)) < 2 ^ 61 ->
  generateBouncingIndices st
  = Some (tt, set_indices (offsets (bouncing_offset (Z.of_nat (length (indices st))))
                                   (Z.of_nat (length (indices st)))) st).
Proof.
  intros Hl. apply for_each_index_fill; [assumption|].
  intros i m Hi Hm. unfold bouncing_offset, size_rem.
  destruct (i mod 2 =? 0).
  - size_small. reflexivity.
  - unfold bind. rewrite indices_size_small by (rewrite Hm; assumption). rewrite Hm.
    size_small. reflexivity.
Qed.

(** X9. On a vector of any length (empty and odd lengths included) the C++
    Sequential, Backward and Bouncing generators stay inside the vector and
    write the offsets of their formulas; Backward and Bouncing leave a
    permutation of what Sequential leaves. *)
Theorem cpp_generators_any_length (st : machine) :
  Z.of_nat (length (indices st)) < 2 ^ 61 ->
  exists fwd bwd bnc : list Z,
    generateSequentialIndices st = Some (tt, set_indices fwd st) /\
    generateBackwardIndices st = Some (tt, set_indices bwd st) /\
    generateBouncingIndices st = Some (tt, set_indices bnc st) /\
    length fwd = length (indices st) /\
    (forall i, 0 <= i < Z.of_nat (length (indices st)) ->
       fwd !! Z.to_nat i = Some (i * 8) /\
       bwd !! Z.to_nat i = Some ((Z.of_nat (length (indices st)) - 1 - i) * 8) /\
       bnc !! Z.to_nat i
       = Some (if i mod 2 =? 0 then (i / 2) * 8
               else (Z.of_nat (length (indices st)) - 1 - i / 2) * 8)) /\
    bwd ≡ₚ fwd /\ bnc ≡ₚ fwd /\ NoDup fwd.
Proof.
  intros Hl. set (L := Z.of_nat (length (indices st))) in *.
  exists (offsets sequential_offset L), (offsets (backward_offset L) L),
         (offsets (bouncing_offset L) L).
  split; [now apply generateSequentialIndices_spec|].
  split; [now apply generateBackwardIndices_spec|].
  split; [now apply generateBouncingIndices_spec|].
  split; [rewrite offsets_length; subst L; apply Nat2Z.id|].
  split; [|split; [apply backward_permutation|split; [apply bouncing_permutation|]]].
  - intros i Hi. rewrite !offsets_lookup by assumption. now split; [|split].
  - unfold offsets. apply NoDup_fmap_2_strong; [|apply NoDup_seqZ].
    intros x y _ _. unfold sequential_offset. lia.
Qed.

Lemma cpp_generators_any_length_witness :
  exists fwd bwd bnc : list Z,
    generateSequentialIndices seven_cells = Some (tt, set_indices fwd seven_cells) /\
    generateBackwardIndices seven_cells = Some (tt, set_indices bwd seven_cells) /\
    generateBouncingIndices seven_cells = Some (tt, set_indices bnc seven_cells) /\
    length fwd = length (indices seven_cells) /\
    (forall i, 0 <= i < Z.of_nat (length (indices seven_cells)) ->
       fwd !! Z.to_nat i = Some (i * 8) /\
       bwd !! Z.to_nat i = Some ((Z.of_nat (length (indices seven_cells)) - 1 - i) * 8) /\
       bnc !! Z.to_nat i
       = Some (if i mod 2 =? 0 then (i / 2) * 8
               else (Z.of_nat (length (indices seven_cells)) - 1 - i / 2) * 8)) /\
    bwd ≡ₚ fwd /\ bnc ≡ₚ fwd /\ NoDup fwd.
Proof. apply (cpp_generators_any_length seven_cells). cbn. lia. Defined.

(** The C++ Interleaved generator on a vector of any length: the cells it
    writes, and the cells it leaves. *)
Lemma interleaved_prefix (st : machine) :
  Z.of_nat (length (indices st)) < 2 ^ 61 ->
  generateInterleavedIndices st
  = Some (tt, set_indices
                (offsets (interleaved_offset (Z.of_nat (length (indices st))))
                         (2 * (Z.of_nat (length (indices st)) / 2))
                 ++ drop (Z.to_nat (2 * (Z.of_nat (length (indices st)) / 2)))
                         (indices st)) st).
Proof.
  intros Hl. unfold generateInterleavedIndices, bind at 1.
  rewrite indices_size_small by assumption. cbv zeta. unfold size_div at 1 2.
  set (L := Z.of_nat (length (indices st))) in *. set (fn := interleaved_offset L).
  destruct (for_each_up_inv
    (fun i m => written fn (2 * i) st m /\
                forall k : nat, 2 * i <= Z.of_nat k -> indices m !! k = indices st !! k)
    (fun i => store_index (size_mul 2 i) (size_mul i 8) >>>
              store_index (size_add (size_mul 2 i) 1) (size_mul (size_add (L / 2) i) 8))
    0 (L / 2) st) as (st' & Hrun & Hw & Hrest).
  - subst L. dlia.
  - split; [apply written_start|reflexivity].
  - intros i m Hi (Hw & Hrest).
    assert (E0 : size_mul i 8 = fn (2 * i)).
    { unfold fn, interleaved_offset. size_small.
      replace (2 * i mod 2 =? 0) with true by (symmetry; apply Z.eqb_eq; dlia).
      f_equal. dlia. }
    assert (E1 : size_mul (size_add (L / 2) i) 8 = fn (2 * i + 1)).
    { unfold fn, interleaved_offset. size_small.
      replace ((2 * i + 1) mod 2 =? 0) with false by (symmetry; apply Z.eqb_neq; dlia).
      f_equal. dlia. }
    assert (I0 : size_mul 2 i = 2 * i) by (size_small; reflexivity).
    assert (I1 : size_add (size_mul 2 i) 1 = 2 * i + 1) by (size_small; reflexivity).
    rewrite E0, E1, I1, I0.
    destruct (written_store fn (2 * i) (2 * i) st m Hw) as (m1 & Hs1 & Hw1 & Hg1);
      [fold L; dlia|lia|].
    pose proof (written_extend fn (2 * i) st m1 Hw1 Hg1) as Hw1'.
    destruct (written_store fn (2 * i + 1) (2 * i + 1) st m1 Hw1') as (m2 & Hs2 & Hw2 & Hg2);
      [fold L; dlia|lia|].
    pose proof (written_extend fn (2 * i + 1) st m2 Hw2 Hg2) as Hw2'.
    exists m2. split; [unfold bind; rewrite Hs1; exact Hs2|]. split.
    + now replace (2 * (i + 1)) with (2 * i + 1 + 1) by lia.
    + intros k Hk.
      rewrite (store_index_ok (2 * i) (fn (2 * i)) m) in Hs1
        by (destruct Hw as (_ & Hlm & _); rewrite Hlm; fold L; dlia).
      injection Hs1 as <-.
      rewrite (store_index_ok (2 * i + 1) (fn (2 * i + 1))) in Hs2
        by (cbn; rewrite length_insert; destruct Hw as (_ & Hlm & _); rewrite Hlm;
            fold L; dlia).
      injection Hs2 as <-. cbn.
      rewrite !list_lookup_insert_ne by lia. apply Hrest. lia.
  - rewrite Hrun. f_equal. f_equal. destruct Hw as (Hframe & Hlen & Hget).
    rewrite Hframe. f_equal. apply list_eq. intros k.
    destruct (decide (Z.of_nat k < 2 * (L / 2))) as [Hk|Hk].
    + rewrite lookup_app_l by (rewrite offsets_length; lia).
      specialize (Hget (Z.of_nat k)). rewrite Nat2Z.id in Hget. rewrite Hget by lia.
      pose proof (offsets_lookup fn (2 * (L / 2)) (Z.of_nat k)) as E.
      rewrite Nat2Z.id in E. rewrite E by lia. reflexivity.
    + rewrite lookup_app_r by (rewrite offsets_length; lia).
      rewrite offsets_length, lookup_drop, Hrest by lia. f_equal. lia.
Qed.

Lemma offsets_snoc (fn : Z -> Z) (n : Z) :
  0 <= n -> offsets fn (n + 1) = offsets fn n ++ [fn n].
Proof.
  intros Hn. unfold offsets. rewrite seqZ_app by lia. rewrite fmap_app.
  f_equal.
Qed.

(** X10. The C++ Interleaved generator writes the first [2 * (L / 2)] cells
    of a vector of [L] cells.  When [L] is even that is the whole vector, and
    the result is a permutation of [0, 8, ..., (L-1)*8].  When [L] is odd the
    last cell keeps what it held before, the cells before it are a permutation
    of [0, 8, ..., (L-2)*8], and the whole vector is a permutation of
    [0, 8, ..., (L-1)*8] exactly when the last cell already held [(L-1)*8]. *)
Theorem cpp_interleaved_odd_length (st : machine) (old : Z) :
  Z.of_nat (length (indices st)) < 2 ^ 61 ->
  last (indices st) = Some old ->
  exists offs : list Z,
    generateInterleavedIndices st = Some (tt, set_indices offs st) /\
    length offs = length (indices st) /\
    (Z.of_nat (length (indices st)) mod 2 = 0 ->
       offs = offsets (interleaved_offset (Z.of_nat (length (indices st))))
                      (Z.of_nat (length (indices st))) /\
       offs ≡ₚ offsets sequential_offset (Z.of_nat (length (indices st)))) /\
    (Z.of_nat (length (indices st)) mod 2 = 1 ->
       last offs = Some old /\
       take (length (indices st) - 1) offs
       ≡ₚ offsets sequential_offset (Z.of_nat (length (indices st)) - 1) /\
       (offs ≡ₚ offsets sequential_offset (Z.of_nat (length (indices st)))
        <-> old = (Z.of_nat (length (indices st)) - 1) * 8)).
Proof.
  intros Hl Hold. set (L := Z.of_nat (length (indices st))) in *.
  assert (HL1 : 1 <= L).
  { destruct (indices st) eqn:E; [discriminate|]. subst L. cbn [length]. lia. }
  eexists. split; [now apply interleaved_prefix|]. fold L.
  split; [|split].
  - rewrite length_app, offsets_length, length_drop. subst L. dlia.
  - intros Heven. replace (2 * (L / 2)) with L by dlia.
    rewrite drop_ge by (subst L; lia). rewrite app_nil_r.
    split; [reflexivity|]. now apply interleaved_permutation.
  - intros Hodd.
    assert (Hdrop : drop (Z.to_nat (2 * (L / 2))) (indices st) = [old]).
    { rewrite last_lookup in Hold.
      replace (Z.to_nat (2 * (L / 2))) with (Init.Nat.pred (length (indices st)))
        by (subst L; dlia).
      apply list_eq. intros k. rewrite lookup_drop. destruct k as [|k]; cbn.
      - now rewrite Nat.add_0_r.
      - apply lookup_ge_None. lia. }
    rewrite Hdrop.
    assert (Hpre : offsets (interleaved_offset L) (2 * (L / 2))
                   ≡ₚ offsets sequential_offset (L - 1)).
    { replace (L - 1) with (2 * (L / 2)) by dlia.
      rewrite (offsets_ext (interleaved_offset L) (interleaved_offset (2 * (L / 2)))).
      - apply interleaved_permutation. dlia.
      - intros i Hi. unfold interleaved_offset.
        now replace (2 * (L / 2) / 2) with (L / 2) by dlia. }
    split; [apply last_snoc|]. split.
    + rewrite take_app_length'; [exact Hpre|]. rewrite offsets_length. subst L. dlia.
    + replace (offsets sequential_offset L)
        with (offsets sequential_offset (L - 1) ++ [(L - 1) * 8])
        by (change ((L - 1) * 8) with (sequential_offset (L - 1));
            rewrite <- (offsets_snoc sequential_offset (L - 1)) by lia; f_equal; lia).
      rewrite Hpre. split.
      * intros Hp. apply Permutation_app_inv_l in Hp.
        apply Permutation_length_1 in Hp. exact Hp.
      * intros ->. reflexivity.
Qed.

Lemma cpp_interleaved_odd_length_witness :
  exists offs : list Z,
    generateInterleavedIndices seven_cells = Some (tt, set_indices offs seven_cells) /\
    length offs = length (indices seven_cells) /\
    (Z.of_nat (length (indices seven_cells)) mod 2 = 0 ->
       offs = offsets (interleaved_offset (Z.of_nat (length (indices seven_cells))))
                      (Z.of_nat (length (indices seven_cells))) /\
       offs ≡ₚ offsets sequential_offset (Z.of_nat (length (indices seven_cells)))) /\
    (Z.of_nat (length (indices seven_cells)) mod 2 = 1 ->
       last offs = Some 0 /\
       take (length (indices seven_cells) - 1) offs
       ≡ₚ offsets sequential_offset (Z.of_nat (length (indices seven_cells)) - 1) /\
       (offs ≡ₚ offsets sequential_offset (Z.of_nat (length (indices seven_cells)))
        <-> 0 = (Z.of_nat (length (indices seven_cells)) - 1) * 8)).
Proof.
  apply (cpp_interleaved_odd_length seven_cells 0); [cbn; lia|reflexivity].
Defined.

(** The vector the C++ Interleaved generator leaves when it runs after Backward
    on seven cells: the last cell still holds Backward's 0, twice in all. *)
Example cpp_interleaved_after_backward :
  indices_after generateInterleavedIndices seven_cells
  = Some [0; 24; 8; 32; 16; 40; 0].
Proof. vm_compute. reflexivity. Qed.

Lemma cpp_generators_as_c (N : Z) (st : machine) :
  0 < N < 2 ^ 31 -> N mod 16 = 0 ->
  length (indices st) = Z.to_nat (N / 8) ->
  generateSequentialIndices st = generate_sequential_indices N st /\
  generateBackwardIndices st = generate_backward_indices N st /\
  generateInterleavedIndices st = generate_interleaved_indices N st /\
  generateBouncingIndices st = generate_bouncing_indices N st.
Proof.
  intros HN H16 Hlen.
  assert (HL : Z.of_nat (length (indices st)) = N / 8) by (rewrite Hlen; dlia).
  assert (Hsmall : Z.of_nat (length (indices st)) < 2 ^ 61) by (rewrite HL; dlia).
  rewrite generateSequentialIndices_spec, generateBackwardIndices_spec,
    interleaved_prefix, generateBouncingIndices_spec by assumption.
  rewrite generate_sequential_indices_spec, generate_backward_indices_spec,
    generate_interleaved_indices_spec, generate_bouncing_indices_spec
    by (lia || assumption).
  rewrite HL. replace (2 * (N / 8 / 2)) with (N / 8) by dlia.
  rewrite drop_ge by lia. rewrite app_nil_r. repeat split.
Qed.

(** X11. On a vector of [ARRAY_SIZE / 8] cells, which is what the C++
    constructor makes, the four C++ generator methods do exactly what the four
    C functions do on the C program's block: same result state, whatever the
    cells held before. *)
Theorem cpp_generators_match_c (st : machine) :
  length (indices st) = Z.to_nat (ARRAY_SIZE / 8) ->
  generateSequentialIndices st = generate_sequential_indices ARRAY_SIZE st /\
  generateBackwardIndices st = generate_backward_indices ARRAY_SIZE st /\
  generateInterleavedIndices st = generate_interleaved_indices ARRAY_SIZE st /\
  generateBouncingIndices st = generate_bouncing_indices ARRAY_SIZE st /\
  exists offs : list Z,
    generateSequentialIndices st = Some (tt, set_indices offs st) /\
    Z.of_nat (length offs) = 524288.
Proof.
  intros Hlen. pose proof ARRAY_SIZE_range as HN.
  destruct (cpp_generators_as_c ARRAY_SIZE st ltac:(lia) ARRAY_SIZE_mod_16 Hlen)
    as (E1 & E2 & E3 & E4).
  split; [exact E1|]. split; [exact E2|]. split; [exact E3|]. split; [exact E4|].
  exists (offsets sequential_offset (ARRAY_SIZE / 8)). split.
  - rewrite E1. apply generate_sequential_indices_spec; (lia || assumption).
  - rewrite offsets_length, sequence_length_value. lia.
Qed.

Lemma cpp_generators_match_c_witness :
  generateSequentialIndices fresh_state
  = generate_sequential_indices ARRAY_SIZE fresh_state /\
  generateBackwardIndices fresh_state
  = generate_backward_indices ARRAY_SIZE fresh_state /\
  generateInterleavedIndices fresh_state
  = generate_interleaved_indices ARRAY_SIZE fresh_state /\
  generateBouncingIndices fresh_state
  = generate_bouncing_indices ARRAY_SIZE fresh_state /\
  exists offs : list Z,
    generateSequentialIndices fresh_state = Some (tt, set_indices offs fresh_state) /\
    Z.of_nat (length offs) = 524288.
Proof. apply (cpp_generators_match_c fresh_state). apply length_replicate. Defined.

(** ** What [benchmark_pattern] measures *)

Lemma get_time_reading (hst : host) (st : machine) :
  get_time hst st
  = Some (clock_reading hst (clock_calls st), set_clock_calls (S (clock_calls st)) st).
Proof. reflexivity. Qed.

Lemma benchmark_pattern_samples (N : Z) (hst : host) (generate_func : M unit)
    (name : string) (st st1 : machine) :
  0 < N < 2 ^ 31 ->
  generate_func st = Some (tt, st1) ->
  length (indices st1) = Z.to_nat (N / 8) ->
  in_bounds (arr st1) (indices st1) ->
  uint32_fields (arr st1) ->
  exists median,
    median_time double_gt (timed_samples hst (clock_calls st1)) = Some median /\
    benchmark_pattern N hst generate_func name st = Some (median, finished name median st1).
Proof.
  intros HN Hgen Hlen Hb Hu. unfold benchmark_pattern, bind at 1. rewrite Hgen.
  rewrite (to_size_t_small (N / 8)) by dlia.
  assert (Hcount : 0 <= N / 8 <= 2 ^ 32) by dlia.
  destruct (for_each_up_inv (fun _ m => m = st1)
              (fun w => let* sum := read_sum_pass (N / 8) in ret tt)
              0 WARMUP_ITERATIONS st1) as (st1' & Hwarm & ->).
  { unfold WARMUP_ITERATIONS. lia. }
  { reflexivity. }
  { intros w m Hw ->. exists st1. split; [|reflexivity].
    unfold bind. now rewrite read_sum_pass_spec by assumption. }
  unfold bind at 1. rewrite Hwarm.
  set (c := clock_calls st1).
  set (body := fun (i : Z) (times : list float) => _).
  destruct (for_upM_inv
    (fun i times m =>
       m = set_clock_calls (c + Z.to_nat (2 * i)) st1 /\
       length times = Z.to_nat NUM_ITERATIONS /\
       forall k, 0 <= k < i -> times !! Z.to_nat k = Some (timed_sample hst c k))
    body 0 NUM_ITERATIONS (replicate (Z.to_nat NUM_ITERATIONS) 0%float) st1)
    as (times & st2 & Htimed & -> & Hlt & Hget).
  { unfold NUM_ITERATIONS. lia. }
  { split; [|split; [apply length_replicate|intros k Hk; lia]].
    replace (c + Z.to_nat (2 * 0))%nat with c by lia. subst c.
    now destruct st1. }
  { intros i times m Hi (-> & Hlt & Hget). subst body. cbv beta.
    set (m0 := set_clock_calls _ st1).
    exists (<[Z.to_nat i := timed_sample hst c i]> times),
           (set_clock_calls (c + Z.to_nat (2 * (i + 1))) st1).
    split; [|split; [reflexivity|split]].
    - unfold bind. rewrite get_time_reading.
      rewrite read_sum_pass_spec by assumption. rewrite get_time_reading.
      unfold store_sample.
      destruct (0 <=? i) eqn:E1; [|lia].
      destruct (i <? Z.of_nat (length times)) eqn:E2; [|unfold NUM_ITERATIONS in *; lia].
      cbn [andb]. unfold ret. f_equal. f_equal.
      subst m0. unfold set_clock_calls. cbn. f_equal. lia.
    - now rewrite length_insert.
    - intros k Hk. destruct (Z.eq_dec k i) as [->|Hne].
      + apply list_lookup_insert_eq. unfold NUM_ITERATIONS in *. lia.
      + rewrite list_lookup_insert_ne by lia. apply Hget. lia. }
  unfold bind at 1. rewrite Htimed.
  assert (Etimes : times = timed_samples hst c) by (now apply tabulate_eq).
  destruct (median_time_total double_gt times Hlt) as (s & median & _ & _ & _ & _ & Hmed).
  exists median. split; [now rewrite <- Etimes|].
  rewrite Hmed. reflexivity.
Qed.

(** X2. For each of the five patterns, [benchmark_pattern] returns the cell 5
    of the sorted array of exactly these ten samples: sample [i] is
    [(t1 - t0) * 1000.0] where [t0] and [t1] are the readings of the clock
    number [c + 2i] and [c + 2i + 1], [c] being the number of readings made
    before the call.  The generator and the three warmup passes read no clock,
    the call reads it 20 times, prints the one line of the pattern with the
    value it returns, and leaves the pattern's sequence in [indices]. *)
Theorem benchmark_measures_ten_passes (hst : host) (p : pattern) (name : string)
    (st : machine) :
  ready ARRAY_SIZE st ->
  exists (median : float) (st' : machine),
    benchmark_pattern ARRAY_SIZE hst (generator ARRAY_SIZE hst p) name st
    = Some (median, st') /\
    median_time double_gt (timed_samples hst (clock_calls st)) = Some median /\
    length (timed_samples hst (clock_calls st)) = 10%nat /\
    clock_calls st' = (clock_calls st + 20)%nat /\
    stdout st' = stdout st ++ [PatternLine name median] /\
    stderr st' = stderr st /\
    indices st' = pattern_sequence hst (ARRAY_SIZE / 8) p st.
Proof.
  intros Hready. pose proof ARRAY_SIZE_range as HN. pose proof ARRAY_SIZE_mod_16 as H16.
  pose proof (generated_ready ARRAY_SIZE hst p st Hready) as (Ha & Hi & Hu).
  destruct Hready as (Ha0 & Hi0 & Hu0).
  destruct (benchmark_pattern_samples ARRAY_SIZE hst (generator ARRAY_SIZE hst p) name st
              (generated hst (ARRAY_SIZE / 8) p st)) as (median & Hmed & Hrun);
    try assumption.
  - lia.
  - now apply generator_spec.
  - apply (sequence_in_bounds ARRAY_SIZE); [lia|dlia|assumption|].
    apply pattern_sequence_permutation. dlia.
  - exists median. eexists. split; [exact Hrun|]. split; [exact Hmed|].
    split; [unfold timed_samples; now rewrite length_fmap, length_seqZ|].
    repeat split.
Qed.

Lemma benchmark_measures_ten_passes_witness :
  exists (median : float) (st' : machine),
    benchmark_pattern ARRAY_SIZE posix_host (generator ARRAY_SIZE posix_host Bouncing)
      "Bouncing" fresh_state
    = Some (median, st') /\
    median_time double_gt (timed_samples posix_host (clock_calls fresh_state))
    = Some median /\
    length (timed_samples posix_host (clock_calls fresh_state)) = 10%nat /\
    clock_calls st' = (clock_calls fresh_state + 20)%nat /\
    stdout st' = stdout fresh_state ++ [PatternLine "Bouncing" median] /\
    stderr st' = stderr fresh_state /\
    indices st' = pattern_sequence posix_host (ARRAY_SIZE / 8) Bouncing fresh_state.
Proof.
  apply (benchmark_measures_ten_passes posix_host Bouncing "Bouncing" fresh_state).
  split; [apply length_replicate|]. split; [apply length_replicate|].
  apply Forall_replicate. cbn. lia.
Defined.

(** ** What [main] prints *)

Lemma report_and_run_output (N : Z) (hst : host) (st : machine) :
  8 <= N < 2 ^ 31 -> N mod 16 = 0 ->
  ready N st ->
  exists (m1 m2 m3 m4 m5 : float) (st' : machine),
    report_and_run N hst st = Some (0, st') /\
    stdout st' = stdout st ++ report_lines N m1 m2 m3 m4 m5 /\
    stderr st' = stderr st /\
    clock_calls st' = (clock_calls st + 5 * Z.to_nat (2 * NUM_ITERATIONS))%nat.
Proof.
  intros HN H16 R0. unfold report_and_run, bind, printf, srand.
  set (st1 := set_rand 42 0 _).
  destruct (run_benchmarks_spec N hst st1 HN H16 R0)
    as (m1 & m2 & m3 & m4 & m5 & st' & Hrun & _ & _ & _ & Herr & Hclock & Hout).
  rewrite Hrun. exists m1, m2, m3, m4, m5, st'.
  split; [reflexivity|]. split; [|split; [exact Herr|exact Hclock]].
  rewrite Hout.
  change (stdout st1)
    with (((stdout st ++ [Banner]) ++ [ArraySizeLine N]) ++ [IterationsLine NUM_ITERATIONS]).
  rewrite <- !app_assoc. reflexivity.
Qed.

Lemma main_output (N : Z) (hst : host) :
  8 <= N < 2 ^ 31 -> N mod 16 = 0 ->
  allocated N hst ->
  exists (m1 m2 m3 m4 m5 : float) (st : machine),
    main N hst = Some (0, st) /\
    stdout st = report_lines N m1 m2 m3 m4 m5 /\
    stderr st = [] /\
    clock_calls st = (5 * Z.to_nat (2 * NUM_ITERATIONS))%nat.
Proof.
  intros HN H16 (ba & bi & Ea & Ei & La & Li). unfold main. rewrite Ea, Ei.
  unfold bind at 1. unfold srand at 1. unfold bind at 1.
  rewrite initialize_array_spec; [| lia | unfold boot; cbn; now rewrite Ea | reflexivity..].
  set (st0 := set_rand _ _ _).
  destruct (report_and_run_output N hst st0 HN H16)
    as (m1 & m2 & m3 & m4 & m5 & st & Hrun & Hout & Herr & Hclock).
  { split; [|split].
    - cbn. apply seeded_buffer_length.
    - unfold boot. cbn. now rewrite Ei.
    - cbn. apply seeded_buffer_uint32. }
  exists m1, m2, m3, m4, m5, st.
  split; [exact Hrun|]. split; [exact Hout|]. split; [exact Herr|exact Hclock].
Qed.

(** X1. When both blocks are allocated, [main] returns 0 having printed, in
    this order and nothing else: the three header lines (with the element count
    4194304 and the iteration count 10), one line per pattern in the order
    Sequential, Backward, Interleaved, Bouncing, Random, the marker line
    [CSV_OUTPUT:], the header row, and five CSV rows in the same order, each
    with the very value of the pattern's line.  Nothing goes to the standard
    error and the clock is read exactly 100 times. *)
Theorem main_report_layout (hst : host) :
  allocated ARRAY_SIZE hst ->
  exists (sequential backward interleaved bouncing random : float) (st : machine),
    main ARRAY_SIZE hst = Some (0, st) /\
    stdout st =
      [Banner; ArraySizeLine 4194304; IterationsLine 10;
       PatternLine "Sequential" sequential; PatternLine "Backward" backward;
       PatternLine "Interleaved" interleaved; PatternLine "Bouncing" bouncing;
       PatternLine "Random" random;
       CsvMarker; CsvHeader;
       CsvRow "Sequential" sequential; CsvRow "Backward" backward;
       CsvRow "Interleaved" interleaved; CsvRow "Bouncing" bouncing;
       CsvRow "Random" random] /\
    stderr st = [] /\
    clock_calls st = 100%nat.
Proof.
  intros Halloc.
  destruct (main_output ARRAY_SIZE hst ARRAY_SIZE_range ARRAY_SIZE_mod_16 Halloc)
    as (m1 & m2 & m3 & m4 & m5 & st & Hmain & Hout & Herr & Hclock).
  exists m1, m2, m3, m4, m5, st.
  split; [exact Hmain|]. split; [exact Hout|]. split; [exact Herr|exact Hclock].
Qed.

Lemma main_report_layout_witness :
  exists (sequential backward interleaved bouncing random : float) (st : machine),
    main ARRAY_SIZE win32_host = Some (0, st) /\
    stdout st =
      [Banner; ArraySizeLine 4194304; IterationsLine 10;
       PatternLine "Sequential" sequential; PatternLine "Backward" backward;
       PatternLine "Interleaved" interleaved; PatternLine "Bouncing" bouncing;
       PatternLine "Random" random;
       CsvMarker; CsvHeader;
       CsvRow "Sequential" sequential; CsvRow "Backward" backward;
       CsvRow "Interleaved" interleaved; CsvRow "Bouncing" bouncing;
       CsvRow "Random" random] /\
    stderr st = [] /\
    clock_calls st = 100%nat.
Proof.
  apply (main_report_layout win32_host).
  eexists _, _. split; [reflexivity|]. split; [reflexivity|].
  split; apply length_replicate.
Defined.

(** ** Every pattern reads the same records *)

Lemma exact_sum_permutation (buffer : list DataStruct) (l k : list Z) :
  l ≡ₚ k -> exact_sum buffer l = exact_sum buffer k.
Proof.
  intros Hp. unfold exact_sum.
  induction Hp as [|x l k _ IH|x y l|l k m _ IH1 _ IH2]; cbn; lia.
Qed.

(** X3. After each of the five generators a read-sum pass ends with the same
    value in the accumulator: the sum of field [a] of every 8th record of the
    buffer.  The patterns differ in the order of the reads only. *)
Theorem patterns_sum_the_same_records (hst : host) (p : pattern) (st : machine) :
  ready ARRAY_SIZE st ->
  exists st' : machine,
    generator ARRAY_SIZE hst p st = Some (tt, st') /\
    read_sum_pass (to_size_t (ARRAY_SIZE / 8)) st' = Some (reference_sum (arr st), st').
Proof.
  intros Hready. pose proof ARRAY_SIZE_range as HN. pose proof ARRAY_SIZE_mod_16 as H16.
  pose proof (generated_ready ARRAY_SIZE hst p st Hready) as (Ha & Hi & Hu).
  destruct Hready as (Ha0 & Hi0 & Hu0).
  set (st' := generated hst (ARRAY_SIZE / 8) p st) in *.
  assert (Hperm : indices st' ≡ₚ offsets sequential_offset (ARRAY_SIZE / 8)).
  { apply pattern_sequence_permutation. dlia. }
  exists st'. split; [apply generator_spec; first [lia | assumption]|].
  rewrite to_size_t_small by dlia.
  rewrite read_sum_pass_spec; try assumption; [|dlia|].
  - f_equal. f_equal. rewrite (exact_sum_permutation _ _ _ Hperm).
    symmetry. apply (reference_sum_sequential ARRAY_SIZE); [lia|dlia|assumption].
  - apply (sequence_in_bounds ARRAY_SIZE); [lia|dlia|assumption|assumption].
Qed.

Lemma patterns_sum_the_same_records_witness :
  exists st' : machine,
    generator ARRAY_SIZE posix_host Random fresh_state = Some (tt, st') /\
    read_sum_pass (to_size_t (ARRAY_SIZE / 8)) st'
    = Some (reference_sum (arr fresh_state), st').
Proof.
  apply (patterns_sum_the_same_records posix_host Random fresh_state).
  split; [apply length_replicate|]. split; [apply length_replicate|].
  apply Forall_replicate. cbn. lia.
Defined.

(** ** The buffer after the seeded loop *)

Lemma seeded_buffer_ext (h1 h2 : host) (N : Z) :
  (forall n, rand_seq h1 12345 n = rand_seq h2 12345 n) ->
  seeded_buffer h1 N = seeded_buffer h2 N.
Proof.
  intros Hext. unfold seeded_buffer. apply list_fmap_ext.
  intros k i _. unfold seeded_record. now rewrite !Hext.
Qed.

Lemma seeded_record_uint32 (hst : host) (i : Z) : uint32_record (seeded_record hst i).
Proof. split; repeat split; apply to_uint32_range. Qed.

Lemma seeded_buffer_lookup (hst : host) (N i : Z) :
  0 <= i < N -> seeded_buffer hst N !! Z.to_nat i = Some (seeded_record hst i).
Proof.
  intros Hi. unfold seeded_buffer. rewrite list_lookup_fmap, lookup_seqZ_lt by lia.
  cbn. do 2 f_equal. lia.
Qed.

(** X4. The loop of [main] that fills the buffer overwrites all eight fields
    of every one of the 4194304 records: field number [k] of record [i] is the
    value of call number [8i + k] of [rand()] after [srand(12345)], reduced to
    32 bits.  So nothing of what [malloc] left in the block survives, and two
    runs on hosts whose [rand()] agrees after [srand(12345)] work on the same
    buffer, whatever else differs between the hosts. *)
Theorem buffer_is_seeded (h1 h2 : host) :
  (forall n, rand_seq h1 12345 n = rand_seq h2 12345 n) ->
  allocated ARRAY_SIZE h1 ->
  allocated ARRAY_SIZE h2 ->
  exists st1 st2 : machine,
    main ARRAY_SIZE h1 = Some (0, st1) /\
    main ARRAY_SIZE h2 = Some (0, st2) /\
    arr st1 = arr st2 /\
    Z.of_nat (length (arr st1)) = 4194304 /\
    Forall uint32_record (arr st1) /\
    (forall i, 0 <= i < 4194304 ->
       arr st1 !! Z.to_nat i
       = Some (mkDataStruct
                 (to_uint32 (rand_seq h1 12345 (Z.to_nat (8 * i) + 0)))
                 (to_uint32 (rand_seq h1 12345 (Z.to_nat (8 * i) + 1)))
                 (to_uint32 (rand_seq h1 12345 (Z.to_nat (8 * i) + 2)))
                 (to_uint32 (rand_seq h1 12345 (Z.to_nat (8 * i) + 3)))
                 (to_uint32 (rand_seq h1 12345 (Z.to_nat (8 * i) + 4)))
                 (to_uint32 (rand_seq h1 12345 (Z.to_nat (8 * i) + 5)))
                 (to_uint32 (rand_seq h1 12345 (Z.to_nat (8 * i) + 6)))
                 (to_uint32 (rand_seq h1 12345 (Z.to_nat (8 * i) + 7))))).
Proof.
  intros Hrand A1 A2. pose proof ARRAY_SIZE_range as HN.
  destruct (main_returns ARRAY_SIZE h1 HN ARRAY_SIZE_mod_16 A1) as (st1 & M1 & B1 & _).
  destruct (main_returns ARRAY_SIZE h2 HN ARRAY_SIZE_mod_16 A2) as (st2 & M2 & B2 & _).
  exists st1, st2. split; [exact M1|]. split; [exact M2|]. rewrite B1, B2.
  split; [now apply seeded_buffer_ext|].
  split; [rewrite seeded_buffer_length, ARRAY_SIZE_value; lia|].
  split.
  - unfold seeded_buffer. apply Forall_fmap, Forall_forall.
    intros i _. apply seeded_record_uint32.
  - intros i Hi. rewrite seeded_buffer_lookup by (rewrite ARRAY_SIZE_value; lia).
    reflexivity.
Qed.

Lemma buffer_is_seeded_witness :
  exists st1 st2 : machine,
    main ARRAY_SIZE posix_host = Some (0, st1) /\
    main ARRAY_SIZE win32_host = Some (0, st2) /\
    arr st1 = arr st2 /\
    Z.of_nat (length (arr st1)) = 4194304 /\
    Forall uint32_record (arr st1) /\
    (forall i, 0 <= i < 4194304 ->
       arr st1 !! Z.to_nat i
       = Some (mkDataStruct
                 (to_uint32 (rand_seq posix_host 12345 (Z.to_nat (8 * i) + 0)))
                 (to_uint32 (rand_seq posix_host 12345 (Z.to_nat (8 * i) + 1)))
                 (to_uint32 (rand_seq posix_host 12345 (Z.to_nat (8 * i) + 2)))
                 (to_uint32 (rand_seq posix_host 12345 (Z.to_nat (8 * i) + 3)))
                 (to_uint32 (rand_seq posix_host 12345 (Z.to_nat (8 * i) + 4)))
                 (to_uint32 (rand_seq posix_host 12345 (Z.to_nat (8 * i) + 5)))
                 (to_uint32 (rand_seq posix_host 12345 (Z.to_nat (8 * i) + 6)))
                 (to_uint32 (rand_seq posix_host 12345 (Z.to_nat (8 * i) + 7))))).
Proof.
  apply (buffer_is_seeded posix_host win32_host).
  - intros n. change (sample_rand 12345 n = sample_rand 12345 n). reflexivity.
  - eexists _, _. split; [reflexivity|]. split; [reflexivity|].
    split; apply length_replicate.
  - eexists _, _. split; [reflexivity|]. split; [reflexivity|].
    split; apply length_replicate.
Defined.

(** ** What a generator touches *)

(** X5. A generator overwrites every cell of [indices]: what it leaves does
    not depend on what the cells held before (for Random, given the state of
    libc's generator).  Apart from [indices] it changes nothing but the count
    of calls of [rand()]: Random makes exactly [L - 1 = 524287] calls, one per
    swap, and the four other generators make none; the seed, the buffer, the
    clock and the two output streams are as before. *)
Theorem generators_overwrite_indices (hst : host) (p : pattern) (st1 st2 : machine) :
  length (indices st1) = Z.to_nat (ARRAY_SIZE / 8) ->
  length (indices st2) = Z.to_nat (ARRAY_SIZE / 8) ->
  rand_seed st1 = rand_seed st2 ->
  rand_calls st1 = rand_calls st2 ->
  exists st1' st2' : machine,
    generator ARRAY_SIZE hst p st1 = Some (tt, st1') /\
    generator ARRAY_SIZE hst p st2 = Some (tt, st2') /\
    indices st1' = indices st2' /\
    Z.of_nat (rand_calls st1')
    = Z.of_nat (rand_calls st1) + match p with Random => 524287 | _ => 0 end /\
    rand_seed st1' = rand_seed st1 /\
    arr st1' = arr st1 /\
    clock_calls st1' = clock_calls st1 /\
    stdout st1' = stdout st1 /\
    stderr st1' = stderr st1.
Proof.
  intros L1 L2 Hseed Hcalls. pose proof ARRAY_SIZE_range as HN.
  exists (generated hst (ARRAY_SIZE / 8) p st1), (generated hst (ARRAY_SIZE / 8) p st2).
  split; [apply generator_spec; first [lia | exact ARRAY_SIZE_mod_16 | assumption]|].
  split; [apply generator_spec; first [lia | exact ARRAY_SIZE_mod_16 | assumption]|].
  split; [|split; [|repeat split]].
  - change (pattern_sequence hst (ARRAY_SIZE / 8) p st1
            = pattern_sequence hst (ARRAY_SIZE / 8) p st2).
    destruct p; cbn [pattern_sequence];
      [reflexivity|reflexivity|reflexivity|reflexivity|].
    rewrite Hseed, Hcalls. reflexivity.
  - change (Z.of_nat (rand_calls st1 + pattern_draws (ARRAY_SIZE / 8) p)
            = Z.of_nat (rand_calls st1) + match p with Random => 524287 | _ => 0 end).
    destruct p; cbn [pattern_draws]; try lia.
    rewrite sequence_length_value. lia.
Qed.

Lemma generators_overwrite_indices_witness :
  exists st1' st2' : machine,
    generator ARRAY_SIZE posix_host Random fresh_state = Some (tt, st1') /\
    generator ARRAY_SIZE posix_host Random
      (set_indices (replicate (Z.to_nat (ARRAY_SIZE / 8)) 99) fresh_state)
    = Some (tt, st2') /\
    indices st1' = indices st2' /\
    Z.of_nat (rand_calls st1') = Z.of_nat (rand_calls fresh_state) + 524287 /\
    rand_seed st1' = rand_seed fresh_state /\
    arr st1' = arr fresh_state /\
    clock_calls st1' = clock_calls fresh_state /\
    stdout st1' = stdout fresh_state /\
    stderr st1' = stderr fresh_state.
Proof.
  apply (generators_overwrite_indices posix_host Random fresh_state
           (set_indices (replicate (Z.to_nat (ARRAY_SIZE / 8)) 99) fresh_state)).
  - apply length_replicate.
  - apply length_replicate.
  - change (42 = 42). reflexivity.
  - change (0%nat = 0%nat). reflexivity.
Defined.

(** ** More on the sort and the median *)

(** X6. Whatever the comparison answers (so also with NaN or infinite
    samples, for which [>] on doubles is not a total order), the sort of ten
    samples returns without reading or writing outside the array, what it
    leaves is a permutation of the samples, and the value returned as median is
    one of the ten samples. *)
Theorem median_is_a_sample {T : Type} (gt : T -> T -> bool) (times : list T) :
  length times = 10%nat ->
  exists (sorted : list T) (median : T),
    bubble_sort gt NUM_ITERATIONS times = Some sorted /\
    sorted ≡ₚ times /\
    median_time gt times = Some median /\
    median ∈ times.
Proof.
  intros Hlen.
  destruct (median_time_total gt times Hlen) as (s & median & Hs & _ & Hp & Hm & Hmed).
  exists s, median. split; [exact Hs|]. split; [exact Hp|]. split; [exact Hmed|].
  rewrite <- Hp. apply list_elem_of_lookup. eauto.
Qed.

Lemma median_is_a_sample_witness :
  exists (sorted : list float) (median : float),
    bubble_sort double_gt NUM_ITERATIONS odd_samples = Some sorted /\
    sorted ≡ₚ odd_samples /\
    median_time double_gt odd_samples = Some median /\
    median ∈ odd_samples.
Proof. apply (median_is_a_sample double_gt odd_samples). reflexivity. Defined.


Section SortMore.
Context {T : Type} (gt : T -> T -> bool).

Lemma compare_exchange_sorted (j : Z) (t : list T) :
  0 <= j -> Z.of_nat (S (Z.to_nat j)) < Z.of_nat (length t) ->
  ascending gt t ->
  compare_exchange gt j t = Some t.
Proof.
  intros Hj Hlt Hasc.
  destruct (lookup_lt_is_Some_2 t (Z.to_nat j)) as [x Hx]; [lia|].
  destruct (lookup_lt_is_Some_2 t (S (Z.to_nat j))) as [y Hy]; [lia|].
  rewrite (compare_exchange_ok gt j x y t Hj Hx Hy). unfold exchanged.
  now rewrite (Hasc (Z.to_nat j) (S (Z.to_nat j)) x y ltac:(lia) ltac:(lia) Hx Hy).
Qed.

(** A sorted array goes through the two loops without one exchange. *)
Lemma bubble_sort_sorted (n : Z) (t : list T) :
  1 <= n -> length t = Z.to_nat n ->
  ascending gt t ->
  bubble_sort gt n t = Some t.
Proof.
  intros Hn Hlen Hasc. unfold bubble_sort.
  destruct (for_up_inv (fun (_ : Z) t' => t' = t)
              (fun i => for_up 0 (n - i - 1) (compare_exchange gt)) 0 (n - 1) t)
    as (s & Hrun & ->); [lia|reflexivity| |exact Hrun].
  intros i u Hi ->. exists t. split; [|reflexivity].
  destruct (for_up_inv (fun (_ : Z) t' => t' = t) (compare_exchange gt) 0 (n - i - 1) t)
    as (s & Hrun & ->); [lia|reflexivity| |exact Hrun].
  intros j u Hj ->. exists t. split; [|reflexivity].
  apply compare_exchange_sorted; [lia|lia|assumption].
Qed.

Lemma filter_length_le (P Q : T -> Prop) `{forall x, Decision (P x)}
    `{forall x, Decision (Q x)} (l : list T) :
  (forall x, x ∈ l -> P x -> Q x) -> (length (filter P l) <= length (filter Q l))%nat.
Proof.
  intros Himp. induction l as [|x l IH]; [reflexivity|].
  assert (IH' : (length (filter P l) <= length (filter Q l))%nat).
  { apply IH. intros y Hy. apply Himp. now right. }
  rewrite !filter_cons. destruct (decide (P x)) as [HP|HP].
  - rewrite decide_True by (apply Himp; [left|exact HP]). cbn. lia.
  - destruct (decide (Q x)); cbn; lia.
Qed.

Variable samples : list T.
Hypothesis gt_asym :
  forall x y, x ∈ samples -> y ∈ samples -> gt x y = true -> gt y x = false.
Hypothesis not_gt_trans :
  forall x y z, x ∈ samples -> y ∈ samples -> z ∈ samples ->
    gt x y = false -> gt y z = false -> gt x z = false.

Lemma median_counts (times : list T) :
  times ⊆ samples ->
  length times = 10%nat ->
  exists (sorted : list T) (median : T),
    bubble_sort gt NUM_ITERATIONS times = Some sorted /\
    ascending gt sorted /\ length sorted = 10%nat /\
    median_time gt times = Some median /\
    median ∈ times /\
    (count_below gt median times <= 5)%nat /\
    (6 <= count_not_above gt median times)%nat.
Proof.
  intros Hsub Hlen.
  destruct (bubble_sort_spec gt samples gt_asym not_gt_trans NUM_ITERATIONS times)
    as (sorted & Hsort & Hl & Hperm & Hasc);
    [exact Hsub|unfold NUM_ITERATIONS; lia|exact Hlen|].
  destruct (lookup_lt_is_Some_2 sorted 5) as [median Hmed]; [lia|].
  assert (Smed : median ∈ times).
  { rewrite <- Hperm. apply list_elem_of_lookup. eauto. }
  exists sorted, median. split; [exact Hsort|]. split; [exact Hasc|].
  split; [congruence|]. split; [unfold median_time; rewrite Hsort; exact Hmed|].
  split; [exact Smed|]. split.
  - rewrite <- (count_below_permutation gt median sorted times Hperm).
    apply (ascending_count_below gt samples gt_asym sorted 5 median); auto.
  - rewrite <- (count_not_above_permutation gt median sorted times Hperm).
    apply (ascending_count_not_above gt samples gt_asym sorted 5 median); auto.
Qed.

Lemma medians_not_above (l k : list T) (m1 m2 : T) :
  k ⊆ samples -> m1 ∈ samples -> m2 ∈ samples ->
  l ≡ₚ k ->
  (count_below gt m1 l <= 5)%nat ->
  (6 <= count_not_above gt m2 k)%nat ->
  gt m1 m2 = false.
Proof.
  intros Hsub S1 S2 Hp H1 H2. destruct (gt m1 m2) eqn:E; [exfalso|reflexivity].
  rewrite (count_below_permutation gt m1 l k Hp) in H1.
  assert (Hle : (count_not_above gt m2 k <= count_below gt m1 k)%nat).
  { unfold count_not_above, count_below. apply filter_length_le.
    intros x Sx Hx. destruct (gt m1 x) eqn:Ex; [reflexivity|].
    rewrite (not_gt_trans m1 x m2 S1 (Hsub x Sx) S2 Ex Hx) in E. discriminate. }
  lia.
Qed.
End SortMore.

(** X7. Sorting is idempotent.  Ten samples that are already in ascending
    order go through the two loops without one exchange; so, for ten samples
    that the comparison orders (asymmetric and negatively transitive on the
    samples, as [>] on doubles is on any samples without a NaN), sorting the
    sorted array again gives the same array and the same median. *)
Theorem sorted_samples_are_left_alone {T : Type} (gt : T -> T -> bool) (times : list T) :
  (forall x y, x ∈ times -> y ∈ times -> gt x y = true -> gt y x = false) ->
  (forall x y z, x ∈ times -> y ∈ times -> z ∈ times ->
     gt x y = false -> gt y z = false -> gt x z = false) ->
  length times = 10%nat ->
  exists sorted : list T,
    bubble_sort gt NUM_ITERATIONS times = Some sorted /\
    bubble_sort gt NUM_ITERATIONS sorted = Some sorted /\
    median_time gt sorted = median_time gt times /\
    (ascending gt times -> sorted = times).
Proof.
  intros Hasym Htrans Hlen.
  destruct (median_counts gt times Hasym Htrans times (fun v Hv => Hv) Hlen)
    as (sorted & median & Hsort & Hasc & Hl & Hmed & _).
  assert (Hagain : bubble_sort gt NUM_ITERATIONS sorted = Some sorted).
  { apply bubble_sort_sorted; [unfold NUM_ITERATIONS; lia|exact Hl|exact Hasc]. }
  exists sorted. split; [exact Hsort|]. split; [exact Hagain|]. split.
  - unfold median_time. now rewrite Hagain, Hsort.
  - intros Htimes.
    rewrite (bubble_sort_sorted gt NUM_ITERATIONS times) in Hsort;
      [congruence|unfold NUM_ITERATIONS; lia|exact Hlen|exact Htimes].
Qed.

Lemma sorted_samples_are_left_alone_witness :
  exists sorted : list float,
    bubble_sort double_gt NUM_ITERATIONS example_samples = Some sorted /\
    bubble_sort double_gt NUM_ITERATIONS sorted = Some sorted /\
    median_time double_gt sorted = median_time double_gt example_samples /\
    (ascending double_gt example_samples -> sorted = example_samples).
Proof.
  apply (sorted_samples_are_left_alone double_gt example_samples).
  - apply asymmetric_on_spec. vm_compute. reflexivity.
  - apply negatively_transitive_on_spec. vm_compute. reflexivity.
  - reflexivity.
Defined.

(** X8. For ten samples that the comparison orders (asymmetric and
    negatively transitive on the samples, as [>] on doubles is on any samples
    without a NaN), the median depends on the samples only, not on the order in
    which the ten passes produced them: for two arrays with the same samples in
    any two orders, neither median is above the other, and the two medians are
    equal when the comparison tells any two different samples apart.  (With a
    NaN among the samples the median does depend on their order: see
    [nan_median_depends_on_order].) *)
Theorem median_ignores_order {T : Type} (gt : T -> T -> bool) (times1 times2 : list T) :
  (forall x y, x ∈ times1 -> y ∈ times1 -> gt x y = true -> gt y x = false) ->
  (forall x y z, x ∈ times1 -> y ∈ times1 -> z ∈ times1 ->
     gt x y = false -> gt y z = false -> gt x z = false) ->
  length times1 = 10%nat ->
  times1 ≡ₚ times2 ->
  exists m1 m2 : T,
    median_time gt times1 = Some m1 /\
    median_time gt times2 = Some m2 /\
    m1 ∈ times1 /\ m2 ∈ times1 /\
    gt m1 m2 = false /\ gt m2 m1 = false /\
    ((forall x y, x ∈ times1 -> y ∈ times1 ->
        gt x y = false -> gt y x = false -> x = y) -> m1 = m2).
Proof.
  intros Hasym Htrans Hlen Hperm.
  assert (Hlen2 : length times2 = 10%nat) by now rewrite <- Hperm.
  assert (Hsub1 : times1 ⊆ times1) by (intros v Hv; exact Hv).
  assert (Hsub2 : times2 ⊆ times1) by (intros v Hv; now rewrite Hperm).
  destruct (median_counts gt times1 Hasym Htrans times1 Hsub1 Hlen)
    as (_ & m1 & _ & _ & _ & Hm1 & S1 & Hb1 & Ha1).
  destruct (median_counts gt times1 Hasym Htrans times2 Hsub2 Hlen2)
    as (_ & m2 & _ & _ & _ & Hm2 & S2 & Hb2 & Ha2).
  apply Hsub2 in S2.
  assert (E12 : gt m1 m2 = false)
    by exact (medians_not_above gt times1 Htrans times1 times2 m1 m2
                Hsub2 S1 S2 Hperm Hb1 Ha2).
  assert (E21 : gt m2 m1 = false)
    by exact (medians_not_above gt times1 Htrans times2 times1 m2 m1
                Hsub1 S2 S1 (symmetry Hperm) Hb2 Ha1).
  exists m1, m2. split; [exact Hm1|]. split; [exact Hm2|].
  split; [exact S1|]. split; [exact S2|].
  split; [exact E12|]. split; [exact E21|]. intros Hanti. now apply Hanti.
Qed.

Lemma median_ignores_order_witness :
  exists m1 m2 : float,
    median_time double_gt example_samples = Some m1 /\
    median_time double_gt (reverse example_samples) = Some m2 /\
    m1 ∈ example_samples /\ m2 ∈ example_samples /\
    double_gt m1 m2 = false /\ double_gt m2 m1 = false /\
    ((forall x y, x ∈ example_samples -> y ∈ example_samples ->
        double_gt x y = false -> double_gt y x = false -> x = y) -> m1 = m2).
Proof.
  apply (median_ignores_order double_gt example_samples (reverse example_samples)).
  - apply asymmetric_on_spec. vm_compute. reflexivity.
  - apply negatively_transitive_on_spec. vm_compute. reflexivity.
  - reflexivity.
  - symmetry. apply reverse_Permutation.
Defined.

(** The array the sort leaves for samples with a NaN among them: not in
    ascending order, since no comparison with a NaN is true. *)
Example nan_samples_stay_unsorted :
  bubble_sort double_gt NUM_ITERATIONS odd_samples
  = Some [3; nan; neg_infinity; 1; 2; 4; 5; infinity; nan; 0]%float /\
  median_time double_gt odd_samples = Some 4%float.
Proof. split; vm_compute; reflexivity. Qed.

(** With a NaN among the samples the value returned as median depends on the
    order of the samples: the same ten samples in two orders give 1 and 6. *)
Example nan_median_depends_on_order :
  nan_samples_down ≡ₚ nan_samples_up /\
  median_time double_gt nan_samples_down = Some 1%float /\
  median_time double_gt nan_samples_up = Some 6%float.
Proof.
  split; [|split; vm_compute; reflexivity].
  change nan_samples_down with (reverse ([1; 2; 3; 4; 5]%float ++ nan :: [6; 7; 8; 9]%float)).
  change nan_samples_up with ([1; 2; 3; 4; 5]%float ++ [6; 7; 8; 9]%float ++ [nan]).
  rewrite reverse_Permutation. apply Permutation_app_head.
  apply Permutation_cons_append.
Qed.

(** X14. On doubles, the program's [>] orders any samples without a NaN: it
    is asymmetric and negatively transitive on them.  So ten timing samples
    none of which is a NaN are sorted into ascending order, without an access
    outside the array, and the value returned as median is the sample in cell
    5 of the sorted array: at most 5 samples are strictly below it and at
    least 6 are not above it. *)
Theorem median_of_doubles_without_nan (times : list float) :
  Forall (fun x => PrimFloat.is_nan x = false) times ->
  length times = 10%nat ->
  (forall x y, x ∈ times -> y ∈ times ->
     double_gt x y = true -> double_gt y x = false) /\
  (forall x y z, x ∈ times -> y ∈ times -> z ∈ times ->
     double_gt x y = false -> double_gt y z = false -> double_gt x z = false) /\
  exists (sorted : list float) (median : float),
    bubble_sort double_gt NUM_ITERATIONS times = Some sorted /\
    sorted ≡ₚ times /\
    StronglySorted (not_gt double_gt) sorted /\
    sorted !! 5%nat = Some median /\
    median_time double_gt times = Some median /\
    (count_below double_gt median times <= 5)%nat /\
    (6 <= count_not_above double_gt median times)%nat.
Proof.
  intros Hnan Hlen.
  assert (Hasym : forall x y, x ∈ times -> y ∈ times ->
            double_gt x y = true -> double_gt y x = false).
  { intros x y _ _. apply double_gt_asym. }
  assert (Htrans : forall x y z, x ∈ times -> y ∈ times -> z ∈ times ->
            double_gt x y = false -> double_gt y z = false -> double_gt x z = false).
  { intros x y z _ Hy _. apply double_gt_not_trans.
    rewrite Forall_forall in Hnan. now apply Hnan. }
  split; [exact Hasym|]. split; [exact Htrans|].
  destruct (bubble_sort_spec double_gt times Hasym Htrans NUM_ITERATIONS times)
    as (sorted & Hsort & Hl & Hperm & Hasc);
    [intros v Hv; exact Hv|unfold NUM_ITERATIONS; lia|exact Hlen|].
  destruct (lookup_lt_is_Some_2 sorted 5) as [median Hmed]; [lia|].
  assert (Smed : median ∈ times).
  { rewrite <- Hperm. apply list_elem_of_lookup. eauto. }
  exists sorted, median.
  split; [exact Hsort|]. split; [exact Hperm|].
  split; [now apply ascending_StronglySorted|]. split; [exact Hmed|].
  split; [unfold median_time; rewrite Hsort; exact Hmed|]. split.
  - rewrite <- (count_below_permutation double_gt median sorted times Hperm).
    now apply (ascending_count_below double_gt times Hasym sorted 5 median).
  - rewrite <- (count_not_above_permutation double_gt median sorted times Hperm).
    now apply (ascending_count_not_above double_gt times Hasym sorted 5 median).
Qed.

Lemma median_of_doubles_without_nan_witness :
  (forall x y, x ∈ example_samples -> y ∈ example_samples ->
     double_gt x y = true -> double_gt y x = false) /\
  (forall x y z, x ∈ example_samples -> y ∈ example_samples -> z ∈ example_samples ->
     double_gt x y = false -> double_gt y z = false -> double_gt x z = false) /\
  exists (sorted : list float) (median : float),
    bubble_sort double_gt NUM_ITERATIONS example_samples = Some sorted /\
    sorted ≡ₚ example_samples /\
    StronglySorted (not_gt double_gt) sorted /\
    sorted !! 5%nat = Some median /\
    median_time double_gt example_samples = Some median /\
    (count_below double_gt median example_samples <= 5)%nat /\
    (6 <= count_not_above double_gt median example_samples)%nat.
Proof.
  apply (median_of_doubles_without_nan example_samples).
  - repeat constructor.
  - reflexivity.
Defined.

(** ** The C generators need the whole block *)

Lemma iterate_up_fails {X : Type} (Inv : Z -> X -> Prop) (body : Z -> X -> option X)
    (n : nat) (lo k : Z) (x : X) :
  lo <= k < lo + Z.of_nat n ->
  Inv lo x ->
  (forall i y, lo <= i < k -> Inv i y -> exists y', body i y = Some y' /\ Inv (i + 1) y') ->
  (forall y, Inv k y -> body k y = None) ->
  iterate n 1 lo body x = None.
Proof.
  revert lo x. induction n as [|n IH]; intros lo x Hk Hlo Hstep Hfail; [lia|].
  cbn [iterate]. destruct (Z.eq_dec lo k) as [->|Hne].
  - now rewrite Hfail.
  - destruct (Hstep lo x) as (y & Hy & Hinv); [lia|assumption|]. rewrite Hy.
    apply IH; [lia|assumption| |assumption].
    intros i z Hi Hz. apply Hstep; [lia|assumption].
Qed.

Lemma for_each_up_fails (Inv : Z -> machine -> Prop) (body : Z -> M unit)
    (lo hi k : Z) (st : machine) :
  lo <= k < hi ->
  Inv lo st ->
  (forall i m, lo <= i < k -> Inv i m -> exists m', body i m = Some (tt, m') /\ Inv (i + 1) m') ->
  (forall m, Inv k m -> body k m = None) ->
  for_each_up lo hi body st = None.
Proof.
  intros Hk Hlo Hstep Hfail. unfold for_each_up, for_upM, for_up.
  apply (iterate_up_fails (fun i x => Inv i (snd x)) _ _ lo k); [lia|exact Hlo| |].
  - intros i [[] m] Hi Hm. destruct (Hstep i m Hi Hm) as (m' & Hb & Hm').
    exists (tt, m'). split; [exact Hb|exact Hm'].
  - intros [[] m] Hm. exact (Hfail m Hm).
Qed.

Lemma store_index_outside (i v : Z) (st : machine) :
  Z.of_nat (length (indices st)) <= i -> store_index i v st = None.
Proof.
  intros Hi. unfold store_index. destruct (0 <=? i); [|reflexivity].
  destruct (i <? Z.of_nat (length (indices st))) eqn:E; [lia|reflexivity].
Qed.

Lemma store_index_length (i v : Z) (st st' : machine) :
  store_index i v st = Some (tt, st') -> length (indices st') = length (indices st).
Proof.
  unfold store_index. destruct (_ && _); [|discriminate].
  intros E. injection E as <-. cbn. apply length_insert.
Qed.

(** A loop that stores in cell [i] at iteration [i] runs off a block of fewer
    than [L] cells. *)
Lemma fill_loop_overrun (body : Z -> M unit) (fn : Z -> Z) (L : Z) (st : machine) :
  Z.of_nat (length (indices st)) < L ->
  (forall i m, 0 <= i < L -> body i m = store_index i (fn i) m) ->
  for_each_up 0 L body st = None.
Proof.
  intros Hlen Hbody.
  apply (for_each_up_fails (fun _ m => length (indices m) = length (indices st))
           body 0 L (Z.of_nat (length (indices st)))); [lia|reflexivity| |].
  - intros i m Hi Hm. rewrite Hbody by lia.
    rewrite store_index_ok by lia. eexists. split; [reflexivity|].
    cbn. now rewrite length_insert.
  - intros m Hm. rewrite Hbody by lia. apply store_index_outside. lia.
Qed.

Lemma generator_overrun (N : Z) (hst : host) (p : pattern) (st : machine) :
  8 <= N < 2 ^ 31 -> N mod 16 = 0 ->
  Z.of_nat (length (indices st)) < N / 8 ->
  generator N hst p st = None.
Proof.
  intros HN H16 Hlen.
  assert (Hseq : generate_sequential_indices N st = None).
  { unfold generate_sequential_indices. rewrite to_size_t_small by dlia.
    apply (fill_loop_overrun _ sequential_offset); [assumption|].
    intros i m Hi. unfold sequential_offset. size_small. reflexivity. }
  destruct p; cbn [generator].
  - exact Hseq.
  - unfold generate_backward_indices. rewrite (to_size_t_small (N / 8)) by dlia.
    apply (fill_loop_overrun _ (backward_offset (N / 8))); [assumption|].
    intros i m Hi. unfold backward_offset. size_small. reflexivity.
  - unfold generate_interleaved_indices. cbv zeta.
    rewrite (to_size_t_small (N / 8 / 2)) by dlia.
    set (len := Z.of_nat (length (indices st))) in *.
    apply (for_each_up_fails (fun _ m => length (indices m) = length (indices st))
             _ 0 (N / 8 / 2) (len / 2)); [subst len; dlia|reflexivity| |].
    + intros i m Hi Hm.
      assert (I0 : size_mul 2 i = 2 * i) by (size_small; reflexivity).
      assert (I1 : size_add (size_mul 2 i) 1 = 2 * i + 1) by (size_small; reflexivity).
      rewrite I1, I0. unfold bind.
      rewrite store_index_ok by (rewrite Hm; fold len; dlia).
      rewrite store_index_ok by (cbn; rewrite length_insert, Hm; fold len; dlia).
      eexists. split; [reflexivity|]. cbn. now rewrite !length_insert.
    + intros m Hm.
      assert (I0 : size_mul 2 (len / 2) = 2 * (len / 2))
        by (subst len; size_small; reflexivity).
      assert (I1 : size_add (size_mul 2 (len / 2)) 1 = 2 * (len / 2) + 1)
        by (subst len; size_small; reflexivity).
      rewrite I1, I0. unfold bind.
      destruct (store_index (2 * (len / 2)) _ m) as [[[] m1]|] eqn:E1; [|reflexivity].
      apply store_index_outside.
      rewrite (store_index_length _ _ _ _ E1), Hm. fold len. dlia.
  - unfold generate_bouncing_indices. cbv zeta. rewrite (to_size_t_small (N / 8)) by dlia.
    apply (fill_loop_overrun _ (bouncing_offset (N / 8))); [assumption|].
    intros i m Hi. unfold bouncing_offset, size_rem.
    destruct (i mod 2 =? 0); size_small; reflexivity.
  - unfold generate_random_indices, bind. now rewrite Hseq.
Qed.

(** X13. The five C generators take the length of the sequence from the
    constant [ARRAY_SIZE / 8], not from the block: on a block of fewer
    cells each of them writes past the end of the block (undefined behaviour),
    where the C++ methods, which ask the vector for its size, stay inside. *)
Theorem c_generators_need_the_whole_block (hst : host) (p : pattern) (st : machine) :
  Z.of_nat (length (indices st)) < ARRAY_SIZE / 8 ->
  generator ARRAY_SIZE hst p st = None /\
  exists offs : list Z,
    generateSequentialIndices st = Some (tt, set_indices offs st) /\
    length offs = length (indices st).
Proof.
  intros Hlen. pose proof ARRAY_SIZE_range as HN.
  split; [apply generator_overrun; [exact HN|exact ARRAY_SIZE_mod_16|exact Hlen]|].
  eexists. split; [apply generateSequentialIndices_spec; dlia|].
  rewrite offsets_length. apply Nat2Z.id.
Qed.

Lemma c_generators_need_the_whole_block_witness :
  generator ARRAY_SIZE posix_host Interleaved seven_cells = None /\
  exists offs : list Z,
    generateSequentialIndices seven_cells = Some (tt, set_indices offs seven_cells) /\
    length offs = length (indices seven_cells).
Proof.
  apply (c_generators_need_the_whole_block posix_host Interleaved seven_cells).
  rewrite sequence_length_value. cbn. lia.
Defined.

(** ** When a pass is defined *)

Lemma iterate_up_stops {X : Type} (Inv : Z -> X -> Prop) (body : Z -> X -> option X)
    (n : nat) (lo k : Z) (x : X) :
  lo <= k < lo + Z.of_nat n ->
  Inv lo x ->
  (forall i y y', Inv i y -> body i y = Some y' -> Inv (i + 1) y') ->
  (forall y, Inv k y -> body k y = None) ->
  iterate n 1 lo body x = None.
Proof.
  revert lo x. induction n as [|n IH]; intros lo x Hk Hlo Hstep Hfail; [lia|].
  cbn [iterate]. destruct (body lo x) as [y|] eqn:Hy; [|reflexivity].
  destruct (Z.eq_dec lo k) as [->|Hne]; [now rewrite Hfail in Hy|].
  apply IH; [lia|exact (Hstep lo x y Hlo Hy)|exact Hstep|exact Hfail].
Qed.

Lemma read_step_state (st : machine) (j sum : Z) (v : Z) (m : machine) :
  (let* idx := load_index j in
   let* r := load_arr idx in
   ret (to_uint64 (sum + a r))) st = Some (v, m) ->
  m = st.
Proof.
  unfold bind, load_index, load_arr, ret.
  destruct (j <? 0); [discriminate|].
  destruct (indices st !! Z.to_nat j) as [idx|]; [|discriminate].
  destruct (idx <? 0); [discriminate|].
  destruct (arr st !! Z.to_nat idx); [|discriminate].
  intros E. now injection E as _ <-.
Qed.

Lemma read_step_outside (st : machine) (j sum idx : Z) :
  0 <= j -> indices st !! Z.to_nat j = Some idx ->
  ~ 0 <= idx < Z.of_nat (length (arr st)) ->
  (let* idx := load_index j in
   let* r := load_arr idx in
   ret (to_uint64 (sum + a r))) st = None.
Proof.
  intros Hj Hidx Hout. unfold bind. rewrite (load_index_ok j idx) by assumption.
  unfold load_arr. destruct (idx <? 0) eqn:E; [reflexivity|].
  rewrite lookup_ge_None_2 by lia. reflexivity.
Qed.

Lemma read_sum_pass_modular (count : Z) (st : machine) :
  0 <= count ->
  length (indices st) = Z.to_nat count ->
  in_bounds (arr st) (indices st) ->
  read_sum_pass count st = Some (exact_sum (arr st) (indices st) mod 2 ^ 64, st).
Proof.
  intros Hc Hlen Hb. unfold read_sum_pass.
  destruct (for_upM_inv
    (fun j sum m => m = st /\
       sum = exact_sum (arr st) (take (Z.to_nat j) (indices st)) mod 2 ^ 64)
    (fun j sum => let* idx := load_index j in
                  let* r := load_arr idx in
                  ret (to_uint64 (sum + a r)))
    0 count 0 st) as (sum & st' & Hrun & -> & Hsum).
  - lia.
  - split; reflexivity.
  - intros j v m Hj (-> & ->).
    destruct (lookup_lt_is_Some_2 (indices st) (Z.to_nat j)) as [idx Hidx]; [lia|].
    assert (Hin : 0 <= idx < Z.of_nat (length (arr st))).
    { unfold in_bounds in Hb. rewrite Forall_lookup in Hb. exact (Hb _ _ Hidx). }
    destruct (lookup_lt_is_Some_2 (arr st) (Z.to_nat idx)) as [r Hr]; [lia|].
    eexists _, st. split.
    + unfold bind. rewrite (load_index_ok j idx) by (lia || assumption).
      rewrite (load_arr_ok idx r) by (lia || assumption). reflexivity.
    + split; [reflexivity|].
      replace (Z.to_nat (j + 1)) with (S (Z.to_nat j)) by lia.
      rewrite (take_S_r _ _ _ Hidx), exact_sum_snoc.
      assert (Ea : field_a_at (arr st) idx = a r) by (unfold field_a_at; now rewrite Hr).
      rewrite Ea. unfold to_uint64. apply Z.add_mod_idemp_l. lia.
  - rewrite Hrun. rewrite firstn_all2 in Hsum by lia. now rewrite Hsum.
Qed.

Lemma read_sum_pass_outside (count k idx : Z) (st : machine) :
  0 <= k < count ->
  indices st !! Z.to_nat k = Some idx ->
  ~ 0 <= idx < Z.of_nat (length (arr st)) ->
  read_sum_pass count st = None.
Proof.
  intros Hk Hidx Hout. unfold read_sum_pass, for_upM, for_up.
  apply (iterate_up_stops (fun _ x => snd x = st) _ _ 0 k); [lia|reflexivity| |].
  - intros i [sum m] [v m'] Hm Hb. cbn in Hm. subst m. unfold uncurry_body in Hb.
    cbn [fst snd] in Hb |- *. exact (read_step_state st i sum v m' Hb).
  - intros [sum m] Hm. cbn in Hm. subst m. unfold uncurry_body. cbn [fst snd].
    now apply (read_step_outside st k sum idx).
Qed.

(** X12. A read-sum pass over a sequence of [count] offsets is defined
    exactly when every offset is an index of the buffer.  Then it returns, with
    the state unchanged, the sum of the fields read reduced modulo [2^64] (the
    accumulator is a [uint64_t]); with one offset outside the buffer the pass
    reads outside the block (undefined behaviour). *)
Theorem read_pass_defined_iff_in_bounds (count : Z) (st : machine) :
  0 <= count ->
  length (indices st) = Z.to_nat count ->
  (in_bounds (arr st) (indices st) ->
   read_sum_pass count st = Some (exact_sum (arr st) (indices st) mod 2 ^ 64, st)) /\
  (~ in_bounds (arr st) (indices st) -> read_sum_pass count st = None).
Proof.
  intros Hc Hlen. split; [now apply read_sum_pass_modular|].
  intros Hnot. unfold in_bounds in Hnot.
  apply not_Forall_Exists in Hnot; [|intros v; apply _].
  apply Exists_exists in Hnot as (idx & Hin & Hout).
  apply list_elem_of_lookup in Hin as (k & Hk).
  apply (read_sum_pass_outside count (Z.of_nat k) idx).
  - apply lookup_lt_Some in Hk. lia.
  - now rewrite Nat2Z.id.
  - exact Hout.
Qed.

Lemma read_pass_defined_iff_in_bounds_witness :
  (in_bounds (arr small_sequential_state) (indices small_sequential_state) ->
   read_sum_pass 8 small_sequential_state
   = Some (exact_sum (arr small_sequential_state) (indices small_sequential_state)
             mod 2 ^ 64, small_sequential_state)) /\
  (~ in_bounds (arr small_sequential_state) (indices small_sequential_state) ->
   read_sum_pass 8 small_sequential_state = None).
Proof.
  apply (read_pass_defined_iff_in_bounds 8 small_sequential_state); [lia|reflexivity].
Defined.

(** The small program's pass over a sequence with its last offset one
    record past the end of the 64-record buffer. *)
Example small_pass_outside :
  read_sum_pass 8 (set_indices [0; 8; 16; 24; 32; 40; 48; 64] small_state) = None.
Proof. vm_compute. reflexivity. Qed.
